(** * WalletConnect v2 connector (packages/walletconnect-v2/src/index.ts)

    A shallow embedding of the [WalletConnect] connector class: the chain
    ordering and validation helpers, the listeners it installs on the
    provider, and the asynchronous lifecycle operations [connectEagerly],
    [activate] and [deactivate], cut at their [await] points.

    Conventions.
    - A JavaScript [number] that holds a chain id is an integer of [Z]
      (fractions, infinities and values beyond the safe-integer range are
      outside the model: the statements that depend on how a number is
      read or written bound it by [JS.MAX_SAFE_INTEGER]); the result of
      [Number.parseInt], which can be [NaN], has the type [number] below.
    - [T | undefined] is [option T].
    - Strings are sequences of one-byte characters. *)

From Stdlib Require Import ZArith Lia Bool Ascii String List Permutation.
From stdpp Require Import base list.
Import ListNotations.

#[local] Open Scope string_scope.
#[local] Open Scope list_scope.
#[local] Open Scope Z_scope.

(* ===================================================================== *)
(** * Numbers and strings *)
(* ===================================================================== *)

Module JS.

(** The result of [Number.parseInt]. *)
Inductive number : Type :=
| NaN
| Int (z : Z).

(** [Number.MAX_SAFE_INTEGER]: up to it, in magnitude, every integer is a
    Number of its own, is written by [toString] with all its digits, and is
    what [parseInt] returns for its digits. *)
Definition MAX_SAFE_INTEGER : Z := 2 ^ 53 - 1.

(** The character of a digit value, ['0'..'9'] then ['a'..'z'], as
    [Number.prototype.toString(radix)] writes it. *)
Definition digitChar (v : Z) : ascii :=
  ascii_of_N (Z.to_N (if v <? 10 then 48 + v else 87 + v)).

(** The value of a digit character, in either case, as [parseInt] reads
    it. *)
Definition digitValue (c : ascii) : option Z :=
  let n := Z.of_N (N_of_ascii c) in
  if (48 <=? n) && (n <=? 57) then Some (n - 48)
  else if (97 <=? n) && (n <=? 122) then Some (n - 87)
  else if (65 <=? n) && (n <=? 90) then Some (n - 55)
  else None.

(** The digits of a non-negative integer, most significant first, put in
    front of [acc]. [fuel] bounds the number of digits. *)
Fixpoint toDigits (R : Z) (fuel : nat) (n : Z) (acc : list Z) : list Z :=
  match fuel with
  | O => acc
  | S fuel' =>
      let acc' := (n mod R) :: acc in
      if n / R =? 0 then acc' else toDigits R fuel' (n / R) acc'
  end.

Definition digitsOf (R n : Z) : list Z :=
  toDigits R (S (Z.to_nat (Z.log2 n))) n [].

Definition stringOfDigits (ds : list Z) : string :=
  string_of_list_ascii (List.map digitChar ds).

(** [n.toString(radix)] on an integer: all its digits. For radix 10 this is
    what [Number::toString] writes up to [MAX_SAFE_INTEGER] in magnitude
    (beyond, it writes the shortest digits that read back, and from 1e21 an
    exponent). *)
Definition toString (radix : Z) (n : Z) : string :=
  if n <? 0 then String "-" (stringOfDigits (digitsOf radix (- n)))
  else stringOfDigits (digitsOf radix n).

(** The template-literal conversion [`${n}`]. *)
Definition toStr (n : Z) : string := toString 10 n.

(** White space that [parseInt] skips (the one-byte part of StrWhiteSpaceChar). *)
Definition isWhiteSpace (c : ascii) : bool :=
  let n := N_of_ascii c in
  ((9 <=? n) && (n <=? 13))%N || (n =? 32)%N || (n =? 160)%N.

Fixpoint trimStart (s : string) : string :=
  match s with
  | String c s' => if isWhiteSpace c then trimStart s' else s
  | EmptyString => s
  end.

(** The longest prefix of radix-[R] digits, as digit values. *)
Fixpoint radixDigits (R : Z) (s : string) : list Z :=
  match s with
  | EmptyString => []
  | String c s' =>
      match digitValue c with
      | Some v => if v <? R then v :: radixDigits R s' else []
      | None => []
      end
  end.

(** The integer that a digit sequence denotes in radix [R]. *)
Definition mathInt (R : Z) (ds : list Z) : Z :=
  fold_left (fun acc v => acc * R + v) ds 0.

Definition stripSign (s : string) : Z * string :=
  match s with
  | String c s' =>
      if Ascii.eqb c "-" then (-1, s')
      else if Ascii.eqb c "+" then (1, s')
      else (1, s)
  | EmptyString => (1, s)
  end.

Definition stripHexPrefix (s : string) : string :=
  match s with
  | String c1 (String c2 s') =>
      if Ascii.eqb c1 "0" && (Ascii.eqb c2 "x" || Ascii.eqb c2 "X") then s' else s
  | _ => s
  end.

(** [Number.parseInt(string, radix)] for a radix given explicitly
    (ECMA-262, 19.2.5): skip white space, read a sign, for radix 16 skip
    [0x], read the longest run of digits; no digit gives [NaN]. The result
    here is the integer that the digits denote; it is the Number that
    [parseInt] returns where it is at most [MAX_SAFE_INTEGER] in magnitude
    (beyond, [parseInt] returns the nearest double). *)
Definition parseInt (s : string) (radix : Z) : number :=
  let '(sign, S1) := stripSign (trimStart s) in
  if (radix <? 2) || (36 <? radix) then NaN
  else
    let S2 := if radix =? 16 then stripHexPrefix S1 else S1 in
    match radixDigits radix S2 with
    | [] => NaN
    | ds => Int (sign * mathInt radix ds)
    end.

(** Every element of [ds] is a digit of radix [R]. *)
Definition inRadix (R : Z) (ds : list Z) : Prop :=
  Forall (fun v => 0 <= v < R) ds.

(** [array.includes(x)] on an array of integers. *)
Definition includes (l : list Z) (x : Z) : bool :=
  existsb (Z.eqb x) l.

(** [s.startsWith(p)]. *)
Definition startsWith (s p : string) : bool := String.prefix p s.

(** Truthiness of [number | undefined]: [undefined] and [0] are falsy. *)
Definition truthy (d : option Z) : bool :=
  match d with
  | Some z => negb (z =? 0)
  | None => false
  end.

End JS.

(* ===================================================================== *)
(** * Chain ordering and validation *)
(* ===================================================================== *)

(** Modelled from the spec: [getChainsWithDefault] of [./utils], which is
    not part of the sources at hand. Section 4.2: a new sequence with the
    desired chain id first, followed by the remaining elements of [chains]
    in their original relative order. The first occurrence of the id is the
    one taken out. *)
Fixpoint removeFirst (d : Z) (l : list Z) : list Z :=
  match l with
  | [] => []
  | x :: l' => if x =? d then l' else x :: removeFirst d l'
  end.

Definition getChainsWithDefault (chains : list Z) (desiredChainId : Z) : list Z :=
  desiredChainId :: removeFirst desiredChainId chains.

(** Modelled from the spec: [isArrayOneOrMore] of [./utils], not part of the
    sources at hand. Section 4.1 tests the list for being non-empty; an
    absent list is not. *)
Definition isArrayOneOrMore (input : option (list Z)) : bool :=
  match input with
  | Some (_ :: _) => true
  | _ => false
  end.

(** [reorderChainsBasedOnId], index.ts 123-131. The guard is
    [!chains || !desiredChainId || !chains.includes(desiredChainId) ||
    chains.length === 0]: an absent list and an absent id fall to the last
    branch, the id 0 fails [JS.truthy]. *)
Definition reorderChainsBasedOnId
  (chains : option (list Z)) (desiredChainId : option Z) : option (list Z) :=
  match chains, desiredChainId with
  | Some cs, Some d =>
      if negb (JS.truthy (Some d)) || negb (JS.includes cs d)
         || (Z.of_nat (length cs) =? 0)
      then chains
      else Some (getChainsWithDefault cs d)
  | _, _ => chains
  end.

(** The [ChainsProps] object handed to the provider's [init]. *)
Record ChainsProps : Type := mkChainsProps {
  chains : option (list Z);
  optionalChains : option (list Z)
}.

(** What the connector throws, and what the provider rejects with. *)
Inductive Error : Type :=
| NoChainsError
    (* 'Either chains or optionalChains must have at least one item.' *)
| NoSessionError
    (* 'No active session found. Connect your wallet first.' *)
| OptionalChainNotConnectedError (desiredChainId : Z)
    (* 'Cannot activate an optional chain (..), as the wallet is not
       connected to it. ..' *)
| UnknownChainError (desiredChainId : Z)
    (* 'Unknown chain (..). Make sure to include any chains you might
       connect to in the chains or optionalChains parameters ..' *)
| ProviderError (code : Z)
    (* anything the provider, the module import or the endpoint selection
       rejects with *).

(** The constructor arguments that the methods read. *)
Record Config : Type := mkConfig {
  defaultChainId : option Z;
  options_chains : option (list Z);
  options_optionalChains : option (list Z);
  options_rpcMap : option (list (Z * list string));
  options_rpc : option (list (Z * list string));
  timeout : option Z;
  onError : bool
}.

Definition DEFAULT_TIMEOUT : Z := 5000.

(** A default parameter [x = dflt]: the default replaces [undefined] only. *)
Definition orDefault {A} (x dflt : option A) : option A :=
  match x with
  | Some _ => x
  | None => dflt
  end.

(** [this.rpcMap = rpcMap || rpc] and [timeout = DEFAULT_TIMEOUT], index.ts
    70-78. *)
Definition this_rpcMap (cfg : Config) : option (list (Z * list string)) :=
  match options_rpcMap cfg with
  | Some m => Some m
  | None => options_rpc cfg
  end.

Definition this_timeout (cfg : Config) : Z :=
  match timeout cfg with
  | Some t => t
  | None => DEFAULT_TIMEOUT
  end.

(** [getChainProps], index.ts 133-146. *)
Definition getChainProps (cfg : Config) (desiredChainId : option Z)
  : Error + ChainsProps :=
  let desiredChainId := orDefault desiredChainId (defaultChainId cfg) in
  let orderedChains := reorderChainsBasedOnId (options_chains cfg) desiredChainId in
  let orderedOptionalChains :=
    reorderChainsBasedOnId (options_optionalChains cfg) desiredChainId in
  if isArrayOneOrMore orderedChains then
    inr {| chains := orderedChains; optionalChains := orderedOptionalChains |}
  else if isArrayOneOrMore orderedOptionalChains then
    inr {| optionalChains := orderedOptionalChains; chains := orderedChains |}
  else inl NoChainsError.

(** The spec's [validate(required, optional)] (section 4.1): [getChainProps]
    of a connector configured with the two lists and neither a desired nor a
    default chain id. *)
Definition validate (required optional : option (list Z)) : Error + ChainsProps :=
  getChainProps
    {| defaultChainId := None; options_chains := required;
       options_optionalChains := optional; options_rpcMap := None;
       options_rpc := None; timeout := None; onError := false |}
    None.

(* ===================================================================== *)
(** * The provider capability and the Actions collaborator *)
(* ===================================================================== *)

(** The four arrow-function properties of the connector that serve as
    listeners; a value of this type is the identity of the function
    object. *)
Inductive Listener : Type :=
| L_disconnect        (* this.disconnectListener *)
| L_chainChanged      (* this.chainChangedListener *)
| L_accountsChanged   (* this.accountsChangedListener *)
| L_URI.              (* this.URIListener *)

Definition Listener_eqb (a b : Listener) : bool :=
  match a, b with
  | L_disconnect, L_disconnect
  | L_chainChanged, L_chainChanged
  | L_accountsChanged, L_accountsChanged
  | L_URI, L_URI => true
  | _, _ => false
  end.

(** [provider.session], read through [session.namespaces.eip155.accounts]. *)
Record Session : Type := mkSession {
  eip155_accounts : list string
}.

(** Modelled from the spec: the external Provider capability (section 6):
    an optional session, [chainId], [accounts], and event registration and
    deregistration by name. Only the connector's own registrations are
    tracked. *)
Record Provider : Type := mkProvider {
  listeners : list (string * Listener);
  session : option Session;
  chainId : Z;
  accounts : list string
}.

Definition registration_eqb (a b : string * Listener) : bool :=
  String.eqb (fst a) (fst b) && Listener_eqb (snd a) (snd b).

(** [provider.on(event, listener)]: the listener is added at the end. *)
Definition on (event : string) (l : Listener) (pr : Provider) : Provider :=
  {| listeners := listeners pr ++ [(event, l)];
     session := session pr; chainId := chainId pr; accounts := accounts pr |}.

Fixpoint removeFirstRegistration (r : string * Listener)
  (l : list (string * Listener)) : list (string * Listener) :=
  match l with
  | [] => []
  | x :: l' => if registration_eqb r x then l' else x :: removeFirstRegistration r l'
  end.

(** [provider.removeListener(event, listener)]: at most one registration
    goes, the one added last. *)
Definition removeListener (event : string) (l : Listener) (pr : Provider) : Provider :=
  {| listeners := rev (removeFirstRegistration (event, l) (rev (listeners pr)));
     session := session pr; chainId := chainId pr; accounts := accounts pr |}.

(** Every call that leaves the connector, in the order it is made: on the
    Actions collaborator ([A_]), on the provider and the other
    collaborators ([C_]). *)
Inductive Call : Type :=
| A_startActivation
| A_cancelActivation (k : nat)       (* the function that the k-th startActivation returned *)
| A_update (chainId : option JS.number) (accounts : option (list string))
| A_resetState
| C_import                            (* import('@walletconnect/ethereum-provider') *)
| C_getBestUrlMap (rpcMap : list (Z * list string)) (timeout : Z)
| C_init (props : ChainsProps) (rpcMap : option (list (Z * string)))
| C_enable (p : nat)
| C_request_switchEthereumChain (p : nat) (chainId : string)
| C_disconnect (p : nat)
| C_onError (e : Error)
| C_emit (topic : string) (uri : string)
| C_consoleLog (p : nat).

Definition isActionsCall (c : Call) : bool :=
  match c with
  | A_startActivation | A_cancelActivation _ | A_update _ _ | A_resetState => true
  | _ => false
  end.

Definition isRequestCall (c : Call) : bool :=
  match c with
  | C_request_switchEthereumChain _ _ => true
  | _ => false
  end.

Definition URI_AVAILABLE : string := "URI_AVAILABLE".

(* ===================================================================== *)
(** * The connector and its asynchronous operations *)
(* ===================================================================== *)

(** Where a call of [initializeProvider] is suspended. *)
Inductive InitState : Type :=
| AwaitImport (desiredChainId : option Z)
| AwaitBestUrlMap (desiredChainId : option Z)
| AwaitInit.

(** The promise that [initializeProvider] returned. *)
Inductive Promise : Type :=
| Pending (st : InitState)
| Resolved (p : nat)
| Rejected (e : Error).

(** A call of [connectEagerly] or [activate]: the [await] at which it is
    suspended with the local variables that are live there, or its
    outcome. *)
Inductive Task : Type :=
| CE_awaitInitialize (cancelActivation : nat) (promise : nat)
| CE_awaitDeactivate (cancelActivation : nat) (error : Error)
| AC_awaitInitialize (desiredChainId : option Z) (promise : nat)
| AC_awaitRequest (p : nat)
| AC_awaitEnable (cancelActivation : nat) (p : nat)
| AC_awaitDeactivate (cancelActivation : nat) (error : Error)
| Fulfilled
| Failed (error : Error).

(** The connector instance ([provider], [eagerConnection]) together with
    the objects it works on. [deactivations] is instrumentation: it counts
    the runs of [deactivate]. *)
Record World : Type := mkWorld {
  provider : option nat;           (* this.provider *)
  eagerConnection : option nat;    (* this.eagerConnection *)
  promises : list Promise;
  providers : list Provider;
  tasks : list Task;
  log : list Call;
  deactivations : nat
}.

Definition initial : World :=
  {| provider := None; eagerConnection := None; promises := []; providers := [];
     tasks := []; log := []; deactivations := 0%nat |}.

Definition set_provider (v : option nat) (w : World) : World :=
  {| provider := v; eagerConnection := eagerConnection w; promises := promises w;
     providers := providers w; tasks := tasks w; log := log w;
     deactivations := deactivations w |}.

Definition set_eagerConnection (v : option nat) (w : World) : World :=
  {| provider := provider w; eagerConnection := v; promises := promises w;
     providers := providers w; tasks := tasks w; log := log w;
     deactivations := deactivations w |}.

Definition set_promises (v : list Promise) (w : World) : World :=
  {| provider := provider w; eagerConnection := eagerConnection w; promises := v;
     providers := providers w; tasks := tasks w; log := log w;
     deactivations := deactivations w |}.

Definition set_providers (v : list Provider) (w : World) : World :=
  {| provider := provider w; eagerConnection := eagerConnection w;
     promises := promises w; providers := v; tasks := tasks w; log := log w;
     deactivations := deactivations w |}.

Definition set_tasks (v : list Task) (w : World) : World :=
  {| provider := provider w; eagerConnection := eagerConnection w;
     promises := promises w; providers := providers w; tasks := v; log := log w;
     deactivations := deactivations w |}.

Definition set_log (v : list Call) (w : World) : World :=
  {| provider := provider w; eagerConnection := eagerConnection w;
     promises := promises w; providers := providers w; tasks := tasks w; log := v;
     deactivations := deactivations w |}.

Definition count_deactivation (w : World) : World :=
  {| provider := provider w; eagerConnection := eagerConnection w;
     promises := promises w; providers := providers w; tasks := tasks w;
     log := log w; deactivations := S (deactivations w) |}.

Definition call (c : Call) (w : World) : World := set_log (log w ++ [c]) w.

Definition onProvider (p : nat) (f : Provider -> Provider) (w : World) : World :=
  set_providers (alter f p (providers w)) w.

Definition settle (promise : nat) (v : Promise) (w : World) : World :=
  set_promises (<[promise := v]> (promises w)) w.

Definition continue (t : nat) (v : Task) (w : World) : World :=
  set_tasks (<[t := v]> (tasks w)) w.

(** [this.actions.startActivation()]: the function it returns is known by
    the number of earlier calls. *)
Definition isStartActivation (c : Call) : bool :=
  match c with
  | A_startActivation => true
  | _ => false
  end.

Definition startActivation (w : World) : nat * World :=
  (length (List.filter isStartActivation (log w)), call A_startActivation w).

Section Connector.

Variable cfg : Config.

(** [handleProviderEvents], index.ts 80-86. *)
Definition handleProviderEvents (p : nat) (w : World) : World :=
  onProvider p (fun pr =>
    on "display_uri" L_URI
      (on "accountsChanged" L_accountsChanged
        (on "chainChanged" L_chainChanged
          (on "disconnect" L_disconnect pr)))) w.

(** [disconnectListener], index.ts 88-91. *)
Definition disconnectListener (error : option Error) (w : World) : World :=
  let w := call A_resetState w in
  match error with
  | Some e => if onError cfg then call (C_onError e) w else w
  | None => w
  end.

(** [chainChangedListener], index.ts 93-95. *)
Definition chainChangedListener (chainId : string) (w : World) : World :=
  call (A_update (Some (JS.parseInt chainId 16)) None) w.

(** [accountsChangedListener], index.ts 97-99. *)
Definition accountsChangedListener (accounts : list string) (w : World) : World :=
  call (A_update None (Some accounts)) w.

(** [URIListener], index.ts 101-103. *)
Definition URIListener (uri : string) (w : World) : World :=
  call (C_emit URI_AVAILABLE uri) w.

(** The part of [initializeProvider] (index.ts 105-120) that runs at the
    call: the default parameter, then the dynamic import is awaited. *)
Definition initializeProvider (desiredChainId : option Z) (w : World) : nat * World :=
  let desiredChainId := orDefault desiredChainId (defaultChainId cfg) in
  (length (promises w),
   set_promises (promises w ++ [Pending (AwaitImport desiredChainId)])
     (call C_import w)).

(** Lines 111-115: the argument of [init] is built, which runs
    [getChainProps], and [init] is awaited. *)
Definition initializeProvider_init (promise : nat) (desiredChainId : option Z)
  (rpcMap : option (list (Z * string))) (w : World) : World :=
  match getChainProps cfg desiredChainId with
  | inl e => settle promise (Rejected e) w
  | inr props => settle promise (Pending AwaitInit) (call (C_init props rpcMap) w)
  end.

(** Line 109, after the import: [this.rpcMap ? await getBestUrlMap(..) :
    undefined]. *)
Definition initializeProvider_imported (promise : nat) (desiredChainId : option Z)
  (w : World) : World :=
  match this_rpcMap cfg with
  | Some m =>
      settle promise (Pending (AwaitBestUrlMap desiredChainId))
        (call (C_getBestUrlMap m (this_timeout cfg)) w)
  | None => initializeProvider_init promise desiredChainId None w
  end.

(** Lines 117-119, after [init] returned the provider [pr]: it becomes the
    next provider object, the listeners are attached, the promise resolves. *)
Definition initializeProvider_created (promise : nat) (pr : Provider) (w : World)
  : World :=
  let p := length (providers w) in
  let w := set_providers (providers w ++ [pr]) w in
  let w := handleProviderEvents p w in
  settle promise (Resolved p) w.

(** [isomorphicInitialize], index.ts 148-154. *)
Definition isomorphicInitialize (desiredChainId : option Z) (w : World) : nat * World :=
  let desiredChainId := orDefault desiredChainId (defaultChainId cfg) in
  match eagerConnection w with
  | Some promise => (promise, w)
  | None =>
      let '(promise, w) := initializeProvider desiredChainId w in
      (promise, set_eagerConnection (Some promise) w)
  end.

(** [deactivate], index.ts 213-223. The promise of [disconnect()] is not
    awaited; the body has no suspension point. *)
Definition deactivate (w : World) : World :=
  let w :=
    match provider w with
    | Some p =>
        call (C_disconnect p)
          (onProvider p (fun pr =>
             removeListener "display_uri" L_URI
               (removeListener "accountsChanged" L_accountsChanged
                 (removeListener "chainChanged" L_chainChanged
                   (removeListener "disconnect" L_disconnect pr)))) w)
    | None => w
    end in
  let w := set_provider None w in
  let w := set_eagerConnection None w in
  count_deactivation (call A_resetState w).

(** [connectEagerly], index.ts 157-172, up to the first [await]. *)
Definition connectEagerly (w : World) : World :=
  let '(cancelActivation, w) := startActivation w in
  let '(promise, w) := isomorphicInitialize None w in
  set_tasks (tasks w ++ [CE_awaitInitialize cancelActivation promise]) w.

(** The [catch] blocks of [connectEagerly] and [activate] up to their
    [await this.deactivate()]. *)
Definition catch_deactivate (t : nat) (suspended : Task) (w : World) : World :=
  continue t suspended (deactivate w).

(** [connectEagerly] once [isomorphicInitialize()] has settled. *)
Definition connectEagerly_initialized (t cancelActivation : nat) (r : Promise)
  (w : World) : option World :=
  match r with
  | Pending _ => None
  | Rejected e => Some (catch_deactivate t (CE_awaitDeactivate cancelActivation e) w)
  | Resolved p =>
      match providers w !! p with
      | None => None
      | Some pr =>
          match session pr with
          | None =>
              Some (catch_deactivate t
                      (CE_awaitDeactivate cancelActivation NoSessionError) w)
          | Some _ =>
              Some (continue t Fulfilled
                      (call (A_update (Some (JS.Int (chainId pr))) (Some (accounts pr))) w))
          end
      end
  end.

(** The end of both [catch] blocks: [cancelActivation(); throw error]. *)
Definition cancel_and_throw (t cancelActivation : nat) (error : Error) (w : World)
  : World :=
  continue t (Failed error) (call (A_cancelActivation cancelActivation) w).

(** [activate], index.ts 174-210, up to the first [await]. *)
Definition activate (desiredChainId : option Z) (w : World) : World :=
  let '(promise, w) := isomorphicInitialize desiredChainId w in
  set_tasks (tasks w ++ [AC_awaitInitialize desiredChainId promise]) w.

(** Lines 181-183: is an account of the session on the desired chain? *)
Definition isConnectedToDesiredChain (s : Session) (desiredChainId : Z) : bool :=
  existsb (fun account =>
             JS.startsWith account ("eip155:" ++ JS.toStr desiredChainId ++ ":"))
          (eip155_accounts s).

(** [this.options.optionalChains?.includes(desiredChainId)]. *)
Definition isOptionalChain (desiredChainId : Z) : bool :=
  match options_optionalChains cfg with
  | Some l => JS.includes l desiredChainId
  | None => false
  end.

(** Lines 177-198: [activate] on a provider that has a session. *)
Definition activate_session (t p : nat) (pr : Provider) (s : Session)
  (desiredChainId : option Z) (w : World) : World :=
  let w := call (C_consoleLog p) w in
  match desiredChainId with
  | None => continue t Fulfilled w
  | Some d =>
      if negb (JS.truthy (Some d)) || (d =? chainId pr) then continue t Fulfilled w
      else if negb (isConnectedToDesiredChain s d) then
        if isOptionalChain d
        then continue t (Failed (OptionalChainNotConnectedError d)) w
        else continue t (Failed (UnknownChainError d)) w
      else
        continue t (AC_awaitRequest p)
          (call (C_request_switchEthereumChain p ("0x" ++ JS.toString 16 d)) w)
  end.

(** [activate] once [isomorphicInitialize(desiredChainId)] has settled. A
    rejection leaves [activate] at once: that [await] is outside the [try]. *)
Definition activate_initialized (t : nat) (desiredChainId : option Z) (r : Promise)
  (w : World) : option World :=
  match r with
  | Pending _ => None
  | Rejected e => Some (continue t (Failed e) w)
  | Resolved p =>
      match providers w !! p with
      | None => None
      | Some pr =>
          match session pr with
          | Some s => Some (activate_session t p pr s desiredChainId w)
          | None =>
              let '(cancelActivation, w) := startActivation w in
              Some (continue t (AC_awaitEnable cancelActivation p) (call (C_enable p) w))
          end
      end
  end.

(** Lines 203-209, once [provider.enable()] has settled. On success the
    provider holds the session, chain id and accounts that it has
    [established]; its listeners stay. *)
Definition activate_enabled (t cancelActivation p : nat) (r : Error + Provider)
  (w : World) : World :=
  match r with
  | inr established =>
      let w := onProvider p (fun pr =>
                 {| listeners := listeners pr; session := session established;
                    chainId := chainId established;
                    accounts := accounts established |}) w in
      continue t Fulfilled
        (call (A_update (Some (JS.Int (chainId established)))
                        (Some (accounts established))) w)
  | inl e => catch_deactivate t (AC_awaitDeactivate cancelActivation e) w
  end.

(** What the provider emits towards the listeners. *)
Inductive ProviderEvent : Type :=
| Ev_disconnect (error : option Error)
| Ev_chainChanged (chainId : string)
| Ev_accountsChanged (accounts : list string)
| Ev_display_uri (uri : string).

Definition eventName (e : ProviderEvent) : string :=
  match e with
  | Ev_disconnect _ => "disconnect"
  | Ev_chainChanged _ => "chainChanged"
  | Ev_accountsChanged _ => "accountsChanged"
  | Ev_display_uri _ => "display_uri"
  end.

Definition invoke (l : Listener) (e : ProviderEvent) (w : World) : World :=
  match l, e with
  | L_disconnect, Ev_disconnect error => disconnectListener error w
  | L_chainChanged, Ev_chainChanged c => chainChangedListener c w
  | L_accountsChanged, Ev_accountsChanged a => accountsChangedListener a w
  | L_URI, Ev_display_uri u => URIListener u w
  | _, _ => w
  end.

(** Modelled from the spec: what an event means for the provider that
    emits it. Section 3: the session is destroyed on disconnect. *)
Definition providerAtEvent (e : ProviderEvent) (pr : Provider) : Provider :=
  match e with
  | Ev_disconnect _ =>
      {| listeners := listeners pr; session := None;
         chainId := chainId pr; accounts := accounts pr |}
  | _ => pr
  end.

(** The provider [p] emits [e]: what the event means for the provider
    itself has happened, and the listeners registered under the event's name
    run in the order of their registration. *)
Definition emit (p : nat) (e : ProviderEvent) (w : World) : option World :=
  match providers w !! p with
  | None => None
  | Some pr =>
      Some (fold_left (fun w r =>
                         if String.eqb (fst r) (eventName e) then invoke (snd r) e w
                         else w)
                      (listeners pr) (onProvider p (providerAtEvent e) w))
  end.

(** Modelled from the spec: the provider is external, and so is what it
    holds (section 6: a session, [chainId], [accounts]). The wallet may
    change them at any time; the listeners that the connector registered
    stay. *)
Definition providerChanges (p : nat) (now : Provider) (w : World) : option World :=
  match providers w !! p with
  | None => None
  | Some _ =>
      Some (onProvider p (fun pr =>
              {| listeners := listeners pr; session := session now;
                 chainId := chainId now; accounts := accounts now |}) w)
  end.

(** What can happen next: a call of a public operation, the settling of an
    external promise, the resumption of a suspended call, an event from a
    provider, a change of what a provider holds. *)
Inductive Input : Type :=
| CallConnectEagerly
| CallActivate (desiredChainId : option Z)
| CallDeactivate
| ImportSettled (promise : nat) (r : option Error)
| BestUrlMapSettled (promise : nat) (r : Error + list (Z * string))
| InitSettled (promise : nat) (r : Error + Provider)
| EnableSettled (t : nat) (r : Error + Provider)
| RequestSettled (t : nat) (r : option Error)
| Resume (t : nat)
| ProviderEmits (p : nat) (e : ProviderEvent)
| ProviderChanges (p : nat) (now : Provider).

(** The inputs that continue a call of [initializeProvider]. *)
Definition isConstructionInput (i : Input) : bool :=
  match i with
  | ImportSettled _ _ | BestUrlMapSettled _ _ | InitSettled _ _ => true
  | _ => false
  end.

(** One turn of the event loop; [None] when the input cannot occur in [w]. *)
Definition step (w : World) (i : Input) : option World :=
  match i with
  | CallConnectEagerly => Some (connectEagerly w)
  | CallActivate d => Some (activate d w)
  | CallDeactivate => Some (deactivate w)
  | ImportSettled promise r =>
      match promises w !! promise with
      | Some (Pending (AwaitImport d)) =>
          match r with
          | None => Some (initializeProvider_imported promise d w)
          | Some e => Some (settle promise (Rejected e) w)
          end
      | _ => None
      end
  | BestUrlMapSettled promise r =>
      match promises w !! promise with
      | Some (Pending (AwaitBestUrlMap d)) =>
          match r with
          | inr m => Some (initializeProvider_init promise d (Some m) w)
          | inl e => Some (settle promise (Rejected e) w)
          end
      | _ => None
      end
  | InitSettled promise r =>
      match promises w !! promise with
      | Some (Pending AwaitInit) =>
          match r with
          | inr pr => Some (initializeProvider_created promise pr w)
          | inl e => Some (settle promise (Rejected e) w)
          end
      | _ => None
      end
  | EnableSettled t r =>
      match tasks w !! t with
      | Some (AC_awaitEnable cancelActivation p) =>
          Some (activate_enabled t cancelActivation p r w)
      | _ => None
      end
  | RequestSettled t r =>
      match tasks w !! t with
      | Some (AC_awaitRequest _) =>
          Some (continue t (match r with None => Fulfilled | Some e => Failed e end) w)
      | _ => None
      end
  | Resume t =>
      match tasks w !! t with
      | Some (CE_awaitInitialize cancelActivation promise) =>
          match promises w !! promise with
          | Some r => connectEagerly_initialized t cancelActivation r w
          | None => None
          end
      | Some (AC_awaitInitialize d promise) =>
          match promises w !! promise with
          | Some r => activate_initialized t d r w
          | None => None
          end
      | Some (CE_awaitDeactivate cancelActivation e)
      | Some (AC_awaitDeactivate cancelActivation e) =>
          Some (cancel_and_throw t cancelActivation e w)
      | _ => None
      end
  | ProviderEmits p e => emit p e w
  | ProviderChanges p now => providerChanges p now w
  end.

(** A run of the event loop from [w]. *)
Fixpoint run (w : World) (inputs : list Input) : option World :=
  match inputs with
  | [] => Some w
  | i :: inputs' =>
      match step w i with
      | Some w' => run w' inputs'
      | None => None
      end
  end.

End Connector.

(* ===================================================================== *)
(** * How a turn changes the connector's fields *)
(* ===================================================================== *)

(** The turn from [w] to [w'] left [provider], [eagerConnection], the
    number of constructions started and the count of [deactivate] runs as
    they were. *)
Definition connector_unchanged (w w' : World) : Prop :=
  provider w' = provider w /\
  eagerConnection w' = eagerConnection w /\
  length (promises w') = length (promises w) /\
  deactivations w' = deactivations w.

(** The turn ran [deactivate] once and started no construction. *)
Definition connector_deactivated (w w' : World) : Prop :=
  provider w' = None /\
  eagerConnection w' = None /\
  length (promises w') = length (promises w) /\
  deactivations w' = S (deactivations w).

(** The turn found no memoised handle, started one construction and
    memoised its promise. *)
Definition construction_started (w w' : World) : Prop :=
  eagerConnection w = None /\
  provider w' = provider w /\
  eagerConnection w' = Some (length (promises w)) /\
  length (promises w') = S (length (promises w)) /\
  deactivations w' = deactivations w.

(** What holds of the connector after any run from [initial]: the field
    [provider] is unset; a construction has been started at most once more
    often than [deactivate] has run, and not even that when no handle is
    memoised; the memoised handle is the promise of the last construction. *)
Definition single_flight_invariant (w : World) : Prop :=
  provider w = None /\
  (length (promises w) <= S (deactivations w))%nat /\
  (eagerConnection w = None -> (length (promises w) <= deactivations w)%nat) /\
  (forall promise, eagerConnection w = Some promise -> S promise = length (promises w)).

(** The four registrations of [handleProviderEvents], in their order. *)
Definition attached : list (string * Listener) :=
  [("disconnect", L_disconnect); ("chainChanged", L_chainChanged);
   ("accountsChanged", L_accountsChanged); ("display_uri", L_URI)].

(* ===================================================================== *)
(** * Configurations used in examples *)
(* ===================================================================== *)

Module Examples.

(** Chains 1 and 5 required, nothing optional, no endpoint map. *)
Definition cfg_required : Config :=
  {| defaultChainId := None; options_chains := Some [1; 5];
     options_optionalChains := None; options_rpcMap := None; options_rpc := None;
     timeout := None; onError := true |}.


(** Chains 1 and 5 required, chain 5 the default chain. *)
Definition cfg_default : Config :=
  {| defaultChainId := Some 5; options_chains := Some [1; 5];
     options_optionalChains := None; options_rpcMap := None; options_rpc := None;
     timeout := None; onError := false |}.

(** Chains 1 and 5 required, two candidate endpoints for chain 1. *)
Definition cfg_rpc : Config :=
  {| defaultChainId := None; options_chains := Some [1; 5];
     options_optionalChains := None;
     options_rpcMap := Some [(1, ["https://a.example"; "https://b.example"])];
     options_rpc := None; timeout := None; onError := true |}.

(** No chain configured, two candidate endpoints for chain 1. *)
Definition cfg_no_chains : Config :=
  {| defaultChainId := None; options_chains := Some [];
     options_optionalChains := None;
     options_rpcMap := Some [(1, ["https://a.example"; "https://b.example"])];
     options_rpc := None; timeout := None; onError := true |}.

(** A provider as [init] returns it when no session is persisted. *)
Definition fresh_provider : Provider :=
  {| listeners := []; session := None; chainId := 1; accounts := [] |}.

(** A provider with a session whose only account is on chain 1. *)
Definition connected_provider : Provider :=
  {| listeners := [];
     session := Some {| eip155_accounts := ["eip155:1:0xabc"] |};
     chainId := 1; accounts := ["0xabc"] |}.

(** The state after a run from [initial]; [initial] itself when the run
    contains an input that cannot occur. *)
Definition after (cfg : Config) (inputs : list Input) : World :=
  match run cfg initial inputs with
  | Some w => w
  | None => initial
  end.

(** [activate(d)] was called, the provider was constructed and has a
    session on chain 1; the call is about to resume. *)
Definition session_found (cfg : Config) (d : option Z) : World :=
  after cfg [CallActivate d; ImportSettled 0 None; InitSettled 0 (inr connected_provider)].

(** A provider with a session that has an account on chain 1 and one on
    chain 5. *)
Definition multichain_provider : Provider :=
  {| listeners := [];
     session := Some {| eip155_accounts := ["eip155:1:0xabc"; "eip155:5:0xabc"] |};
     chainId := 1; accounts := ["0xabc"] |}.

Definition multichain_found (cfg : Config) (d : option Z) : World :=
  after cfg [CallActivate d; ImportSettled 0 None; InitSettled 0 (inr multichain_provider)].

End Examples.

(* ===================================================================== *)
(** * Notions for the properties of whole runs *)
(* ===================================================================== *)

(** Reordering keeps a chain list: an absent list stays absent, a list is
    rearranged. *)
Definition rearranged (configured handed : option (list Z)) : Prop :=
  match configured, handed with
  | Some l, Some l' => Permutation l l'
  | None, None => True
  | _, _ => False
  end.

(** [init] returns a provider object on which the connector has not
    registered anything yet. *)
Definition constructs_fresh (i : Input) : Prop :=
  match i with
  | InitSettled _ (inr pr) => listeners pr = []
  | _ => True
  end.

(** The listener that the connector has for each event (index.ts 88-103). *)
Definition listenerOf (cfg : Config) (e : ProviderEvent) (w : World) : World :=
  match e with
  | Ev_disconnect error => disconnectListener cfg error w
  | Ev_chainChanged c => chainChangedListener c w
  | Ev_accountsChanged a => accountsChangedListener a w
  | Ev_display_uri u => URIListener u w
  end.

(** The activation whose cancel function a suspended call holds in its
    local [cancelActivation]. *)
Definition held (t : Task) : option nat :=
  match t with
  | CE_awaitInitialize k _ | CE_awaitDeactivate k _
  | AC_awaitEnable k _ | AC_awaitDeactivate k _ => Some k
  | _ => None
  end.

Definition heldBy (ts : list Task) : list nat :=
  flat_map (fun t => option_list (held t)) ts.

(** The activations that were cancelled, in the order of the calls. *)
Definition cancelled (l : list Call) : list nat :=
  flat_map (fun c => match c with A_cancelActivation k => [k] | _ => [] end) l.

Definition started (l : list Call) : nat :=
  length (List.filter isStartActivation l).

(** Every [cancelActivation] in [l] belongs to a [startActivation] that
    precedes it, [n] activations having been started before [l]. *)
Fixpoint cancelsFollowStarts (n : nat) (l : list Call) : bool :=
  match l with
  | [] => true
  | A_startActivation :: l' => cancelsFollowStarts (S n) l'
  | A_cancelActivation k :: l' => (k <? n)%nat && cancelsFollowStarts n l'
  | _ :: l' => cancelsFollowStarts n l'
  end.

(** Calls among which no activation is started or cancelled. *)
Definition quiet (l : list Call) : Prop :=
  cancelled l = [] /\ started l = 0%nat.

(** What a turn does to the activations: the calls it adds to the log and
    the call of [connectEagerly] or [activate] that it adds or moves on. *)
Inductive ActivationStep (w w' : World) : Prop :=
| AS_quiet (l : list Call) :
    log w' = log w ++ l -> quiet l -> tasks w' = tasks w -> ActivationStep w w'
| AS_called (l : list Call) (task : Task) :
    log w' = log w ++ l -> quiet l -> held task = None ->
    tasks w' = tasks w ++ [task] -> ActivationStep w w'
| AS_called_started (l : list Call) (task : Task) :
    log w' = log w ++ A_startActivation :: l -> quiet l ->
    held task = Some (started (log w)) ->
    tasks w' = tasks w ++ [task] -> ActivationStep w w'
| AS_moved (l : list Call) (t : nat) (old new : Task) :
    log w' = log w ++ l -> quiet l -> tasks w !! t = Some old ->
    held new = held old \/ held new = None ->
    tasks w' = <[t := new]> (tasks w) -> ActivationStep w w'
| AS_started (l : list Call) (t : nat) (old new : Task) :
    log w' = log w ++ A_startActivation :: l -> quiet l ->
    tasks w !! t = Some old -> held old = None ->
    held new = Some (started (log w)) ->
    tasks w' = <[t := new]> (tasks w) -> ActivationStep w w'
| AS_cancelled (t : nat) (old new : Task) (k : nat) :
    log w' = log w ++ [A_cancelActivation k] ->
    tasks w !! t = Some old -> held old = Some k -> held new = None ->
    tasks w' = <[t := new]> (tasks w) -> ActivationStep w w'.

(** What holds of the activations after any run: the activations cancelled
    and those still held by a suspended call are all different and have all
    been started; each cancellation follows its start in the log. *)
Definition activation_invariant (w : World) : Prop :=
  List.NoDup (cancelled (log w) ++ heldBy (tasks w)) /\
  Forall (fun k => (k < started (log w))%nat) (cancelled (log w) ++ heldBy (tasks w)) /\
  cancelsFollowStarts 0 (log w) = true.

(** The calls that a listener makes: on Actions, on the error callback and
    on the outward event channel. *)
Definition byListeners (c : Call) : bool :=
  match c with
  | A_resetState | A_update _ _ | C_onError _ | C_emit _ _ => true
  | _ => false
  end.

(** The calls that the operations [connectEagerly], [activate] and
    [deactivate] and the construction of the provider make: all but those on
    the error callback and on the outward event channel. *)
Definition byOperations (c : Call) : bool :=
  match c with
  | C_onError _ | C_emit _ _ => false
  | _ => true
  end.

Definition isProviderEvent (i : Input) : bool :=
  match i with
  | ProviderEmits _ _ => true
  | _ => false
  end.

(** The constructions under way in [w] are for the desired chain id [d]:
    those that have not yet built the argument of [init] will build it for
    [d], and each call of [init] was handed the chain lists of
    [getChainProps] for [d]. *)
Definition carries (cfg : Config) (d : option Z) (w : World) : Prop :=
  (forall promise d0,
     promises w !! promise = Some (Pending (AwaitImport d0)) \/
     promises w !! promise = Some (Pending (AwaitBestUrlMap d0)) ->
     getChainProps cfg d0 = getChainProps cfg d) /\
  (forall props m, In (C_init props m) (log w) -> getChainProps cfg d = inr props).

(* ===================================================================== *)
(** * Digits: writing a number and reading it back *)
(* ===================================================================== *)

Module JSFacts.
Import JS.

Lemma digitValue_digitChar (v : Z) :
  0 <= v < 36 -> digitValue (digitChar v) = Some v.
Proof.
  intros Hv. unfold digitValue, digitChar.
  rewrite N_ascii_embedding by (destruct (v <? 10) eqn:E; lia).
  rewrite Z2N.id by (destruct (v <? 10); lia).
  destruct (Z.ltb_spec v 10) as [Hlt | Hge].
  - replace ((48 <=? 48 + v) && (48 + v <=? 57)) with true
      by (symmetry; apply andb_true_intro; split; lia).
    f_equal; lia.
  - replace ((48 <=? 87 + v) && (87 + v <=? 57)) with false
      by (symmetry; apply andb_false_intro2; lia).
    replace ((97 <=? 87 + v) && (87 + v <=? 122)) with true
      by (symmetry; apply andb_true_intro; split; lia).
    f_equal; lia.
Qed.

Lemma digitValue_bounds (c : ascii) (v : Z) :
  digitValue c = Some v -> 0 <= v < 36.
Proof.
  unfold digitValue. set (n := Z.of_N (N_of_ascii c)).
  destruct ((48 <=? n) && (n <=? 57)) eqn:E1.
  { intros [= <-]. apply andb_prop in E1 as [? ?]. lia. }
  destruct ((97 <=? n) && (n <=? 122)) eqn:E2.
  { intros [= <-]. apply andb_prop in E2 as [? ?]. lia. }
  destruct ((65 <=? n) && (n <=? 90)) eqn:E3; [|discriminate].
  intros [= <-]. apply andb_prop in E3 as [? ?]. lia.
Qed.

(** A digit character is neither white space nor a sign. *)
Lemma digit_not_space (c : ascii) (v : Z) :
  digitValue c = Some v -> isWhiteSpace c = false.
Proof.
  destruct c as [[] [] [] [] [] [] [] []]; vm_compute; congruence.
Qed.

Lemma digit_not_sign (c : ascii) (v : Z) :
  digitValue c = Some v -> Ascii.eqb c "-" = false /\ Ascii.eqb c "+" = false.
Proof.
  destruct c as [[] [] [] [] [] [] [] []]; vm_compute; intuition congruence.
Qed.

Lemma digit_not_x (c : ascii) (v : Z) :
  digitValue c = Some v -> v < 16 ->
  Ascii.eqb c "x" || Ascii.eqb c "X" = false.
Proof.
  intros H Hv.
  destruct (Ascii.eqb_spec c "x") as [-> | _].
  { vm_compute in H. injection H as <-. lia. }
  destruct (Ascii.eqb_spec c "X") as [-> | _]; [|reflexivity].
  vm_compute in H. injection H as <-. lia.
Qed.

Lemma toDigits_app (R : Z) (fuel : nat) :
  forall n acc, toDigits R fuel n acc = toDigits R fuel n [] ++ acc.
Proof.
  induction fuel as [| fuel IH]; intros n acc; simpl; [reflexivity|].
  destruct (n / R =? 0); [reflexivity|].
  rewrite (IH _ (n mod R :: acc)), (IH _ [n mod R]).
  now rewrite <- app_assoc.
Qed.

Lemma toDigits_inRadix (R : Z) (fuel : nat) :
  0 < R -> forall n acc, inRadix R acc -> inRadix R (toDigits R fuel n acc).
Proof.
  intros HR. induction fuel as [| fuel IH]; intros n acc Hacc; simpl; [assumption|].
  assert (inRadix R (n mod R :: acc))
    by (constructor; [apply Z.mod_pos_bound; lia | assumption]).
  destruct (n / R =? 0); auto.
Qed.

Lemma toDigits_nonempty (R : Z) (fuel : nat) (n : Z) :
  toDigits R (S fuel) n [] <> [].
Proof.
  simpl. destruct (n / R =? 0); [discriminate|].
  rewrite toDigits_app. intros H. apply app_eq_nil in H as [_ H]. discriminate.
Qed.

(** Reading the digits of [n] from the accumulator 0 is reading what
    follows them from the accumulator [n]. *)
Lemma toDigits_value (R : Z) (fuel : nat) :
  2 <= R ->
  forall n acc, 0 <= n < R ^ Z.of_nat fuel ->
    fold_left (fun a v => a * R + v) (toDigits R fuel n acc) 0
    = fold_left (fun a v => a * R + v) acc n.
Proof.
  intros HR. induction fuel as [| fuel IH]; intros n acc Hn.
  - simpl in *. replace n with 0 by lia. reflexivity.
  - cbn [toDigits].
    pose proof (Z.div_mod n R ltac:(lia)) as Hdm.
    pose proof (Z.mod_pos_bound n R ltac:(lia)) as Hmod.
    destruct (Z.eqb_spec (n / R) 0) as [H0 | Hne].
    + cbn [fold_left]. f_equal. rewrite H0 in Hdm. lia.
    + rewrite IH.
      * cbn [fold_left]. f_equal. lia.
      * split; [apply Z.div_pos; lia|].
        apply Z.div_lt_upper_bound; [lia|].
        rewrite Nat2Z.inj_succ, Z.pow_succ_r in Hn by lia. lia.
Qed.

Lemma fuel_suffices (R n : Z) :
  2 <= R -> 0 <= n -> n < R ^ Z.of_nat (S (Z.to_nat (Z.log2 n))).
Proof.
  intros HR Hn.
  rewrite Nat2Z.inj_succ, Z2Nat.id by apply Z.log2_nonneg.
  destruct (Z.eq_dec n 0) as [-> | Hne].
  { apply Z.pow_pos_nonneg; [lia | simpl; lia]. }
  pose proof (Z.log2_spec n ltac:(lia)) as [_ Hlt].
  eapply Z.lt_le_trans; [exact Hlt|].
  apply Z.pow_le_mono_l. lia.
Qed.

Lemma digitsOf_value (R n : Z) :
  2 <= R -> 0 <= n -> mathInt R (digitsOf R n) = n.
Proof.
  intros HR Hn. unfold mathInt, digitsOf.
  rewrite toDigits_value by (auto using fuel_suffices). reflexivity.
Qed.

Lemma digitsOf_inRadix (R n : Z) : 0 < R -> inRadix R (digitsOf R n).
Proof. intros HR. apply toDigits_inRadix; [assumption | constructor]. Qed.

Lemma digitsOf_nonempty (R n : Z) : digitsOf R n <> [].
Proof. apply toDigits_nonempty. Qed.

(** [parseInt] reads all the digits that were written, in any radix that
    admits them. *)
Lemma radixDigits_stringOfDigits (R : Z) (ds : list Z) :
  R <= 36 -> inRadix R ds -> radixDigits R (stringOfDigits ds) = ds.
Proof.
  intros HR. induction 1 as [| v ds Hv _ IH]; [reflexivity|].
  unfold stringOfDigits in *. cbn [List.map string_of_list_ascii radixDigits].
  rewrite digitValue_digitChar by lia.
  destruct (Z.ltb_spec v R); [|lia]. now rewrite IH.
Qed.

Lemma inRadix_weaken (R R' : Z) (ds : list Z) :
  R <= R' -> inRadix R ds -> inRadix R' ds.
Proof.
  intros HR Hds. eapply List.Forall_impl; [|exact Hds].
  intros v Hv; cbv beta in *; lia.
Qed.

(** A digit string, written in a radix of at most 16, goes through the
    first steps of [parseInt] untouched. *)
Lemma parseInt_stringOfDigits (R : Z) (ds : list Z) :
  R <= 16 -> inRadix R ds -> ds <> [] ->
  parseInt (stringOfDigits ds) 16 = Int (mathInt 16 ds).
Proof.
  intros HR Hds Hne. unfold parseInt.
  destruct ds as [| v1 ds]; [congruence|].
  pose proof (Forall_inv Hds) as Hv1. cbv beta in Hv1.
  assert (Hd1 : digitValue (digitChar v1) = Some v1)
    by (apply digitValue_digitChar; lia).
  assert (Htrim : trimStart (stringOfDigits (v1 :: ds)) = stringOfDigits (v1 :: ds)).
  { unfold stringOfDigits. cbn [List.map string_of_list_ascii trimStart].
    now rewrite (digit_not_space _ _ Hd1). }
  rewrite Htrim.
  assert (Hsign : stripSign (stringOfDigits (v1 :: ds)) = (1, stringOfDigits (v1 :: ds))).
  { unfold stringOfDigits. cbn [List.map string_of_list_ascii stripSign].
    destruct (digit_not_sign _ _ Hd1) as [-> ->]. reflexivity. }
  rewrite Hsign. cbn [orb Z.ltb Z.compare Z.eqb Pos.compare Pos.compare_cont Pos.eqb].
  assert (Hhex : stripHexPrefix (stringOfDigits (v1 :: ds)) = stringOfDigits (v1 :: ds)).
  { unfold stringOfDigits. destruct ds as [| v2 ds']; [reflexivity|].
    cbn [List.map string_of_list_ascii stripHexPrefix].
    pose proof (Forall_inv (Forall_inv_tail Hds)) as Hv2. cbv beta in Hv2.
    rewrite (digit_not_x (digitChar v2) v2) by (try apply digitValue_digitChar; lia).
    now rewrite andb_false_r. }
  rewrite Hhex.
  rewrite radixDigits_stringOfDigits by (try apply (inRadix_weaken R); auto; lia).
  f_equal. lia.
Qed.

(** Digits below ten read in base 16 give at least what they give in base
    10. *)
Lemma hex_reading_ge (ds : list Z) :
  inRadix 10 ds -> 0 <= mathInt 10 ds <= mathInt 16 ds.
Proof.
  induction ds as [| v ds IH] using rev_ind; intros Hds.
  - unfold mathInt; simpl; lia.
  - apply Forall_app in Hds as [Hds Hv]. apply Forall_inv in Hv. cbv beta in Hv.
    specialize (IH Hds). unfold mathInt in *.
    rewrite !fold_left_app. cbn [fold_left]. lia.
Qed.

Lemma hex_reading_gt (ds : list Z) :
  inRadix 10 ds -> 10 <= mathInt 10 ds -> mathInt 10 ds < mathInt 16 ds.
Proof.
  destruct ds as [| v ds _] using rev_ind; intros Hds.
  - unfold mathInt; simpl; lia.
  - apply Forall_app in Hds as [Hds Hv]. apply Forall_inv in Hv. cbv beta in Hv.
    pose proof (hex_reading_ge ds Hds) as Hge. unfold mathInt in *.
    rewrite !fold_left_app. cbn [fold_left]. lia.
Qed.

(** A number below [R ^ k] is written with at most [k] digits. *)
Lemma toDigits_length (R : Z) (fuel : nat) :
  2 <= R ->
  forall (k : nat) n acc, 0 <= n < R ^ Z.of_nat (S k) ->
    (length (toDigits R fuel n acc) <= S k + length acc)%nat.
Proof.
  intros HR. induction fuel as [| fuel IH]; intros k n acc Hn; cbn [toDigits].
  - lia.
  - destruct (Z.eqb_spec (n / R) 0) as [H0 | Hne]; [cbn [length]; lia|].
    destruct k as [| k].
    + exfalso. apply Hne. apply Z.div_small. cbn in Hn. lia.
    + etransitivity; [apply (IH k)|cbn [length]; lia].
      split; [apply Z.div_pos; lia|].
      apply Z.div_lt_upper_bound; [lia|].
      rewrite (Nat2Z.inj_succ (S k)), Z.pow_succ_r in Hn by lia. lia.
Qed.

Lemma digitsOf_length (R n : Z) (k : nat) :
  2 <= R -> 0 <= n < R ^ Z.of_nat (S k) -> (length (digitsOf R n) <= S k)%nat.
Proof.
  intros HR Hn. unfold digitsOf.
  pose proof (toDigits_length R (S (Z.to_nat (Z.log2 n))) HR k n [] Hn) as H.
  cbn [length] in H. lia.
Qed.

(** Digits of radix [R] denote a number below [R] to the power of their
    count. *)
Lemma mathInt_bound (R : Z) (ds : list Z) :
  1 <= R -> inRadix R ds -> 0 <= mathInt R ds < R ^ Z.of_nat (length ds).
Proof.
  intros HR. induction ds as [| v ds IH] using rev_ind; intros Hds.
  - unfold mathInt; cbn. lia.
  - apply Forall_app in Hds as [Hds Hv]. apply Forall_inv in Hv. cbv beta in Hv.
    specialize (IH Hds). unfold mathInt in *.
    rewrite fold_left_app, length_app. cbn [fold_left length].
    replace (Z.of_nat (length ds + 1)) with (Z.succ (Z.of_nat (length ds))) by lia.
    rewrite Z.pow_succ_r by lia. nia.
Qed.

(** The decimal digits of a number below 10 ^ 13, read in base 16, denote a
    safe integer. *)
Lemma hex_reading_safe (n : Z) :
  0 <= n < 10 ^ 13 -> mathInt 16 (digitsOf 10 n) <= MAX_SAFE_INTEGER.
Proof.
  intros Hn.
  pose proof (digitsOf_length 10 n 12 ltac:(lia) Hn) as Hlen.
  pose proof (mathInt_bound 16 (digitsOf 10 n) ltac:(lia)
                (inRadix_weaken 10 16 _ ltac:(lia) (digitsOf_inRadix 10 n ltac:(lia))))
    as [_ Hlt].
  assert (16 ^ Z.of_nat (length (digitsOf 10 n)) <= 16 ^ 13)
    by (apply Z.pow_le_mono_r; lia).
  unfold MAX_SAFE_INTEGER.
  change (16 ^ 13) with 4503599627370496 in *.
  change (2 ^ 53 - 1) with 9007199254740991. lia.
Qed.

End JSFacts.

(* ===================================================================== *)
(** * Chain reordering *)
(* ===================================================================== *)

Section Reorder.

Lemma includes_In (l : list Z) (d : Z) : JS.includes l d = true <-> In d l.
Proof.
  unfold JS.includes. rewrite existsb_exists. split.
  - intros (x & Hin & Heq). apply Z.eqb_eq in Heq. now subst.
  - intros Hin. exists d. split; [assumption | apply Z.eqb_refl].
Qed.

Lemma includes_not_In (l : list Z) (d : Z) : JS.includes l d = false <-> ~ In d l.
Proof.
  rewrite <- includes_In. destruct (JS.includes l d); split; congruence.
Qed.

(** Taking out the first occurrence splits the list around it. *)
Lemma removeFirst_split (d : Z) (l : list Z) :
  In d l ->
  exists l1 l2, l = l1 ++ d :: l2 /\ ~ In d l1 /\ removeFirst d l = l1 ++ l2.
Proof.
  induction l as [| x l IH]; intros Hin; [destruct Hin|].
  cbn [removeFirst]. destruct (Z.eqb_spec x d) as [-> | Hne].
  - exists [], l. repeat split. intros [].
  - destruct Hin as [-> | Hin]; [congruence|].
    destruct (IH Hin) as (l1 & l2 & -> & Hnot & Hrm).
    exists (x :: l1), l2. repeat split.
    + intros [-> | H]; [congruence | auto].
    + cbn [app]. now rewrite Hrm.
Qed.

Lemma removeFirst_not_In (d : Z) (l : list Z) : ~ In d l -> removeFirst d l = l.
Proof.
  induction l as [| x l IH]; intros Hnot; [reflexivity|].
  cbn [removeFirst]. destruct (Z.eqb_spec x d) as [-> | Hne].
  - exfalso. apply Hnot. now left.
  - f_equal. apply IH. intros H. apply Hnot. now right.
Qed.

(** The reordered list is a rearrangement of the original one. *)
Lemma getChainsWithDefault_Permutation (d : Z) (l : list Z) :
  In d l -> Permutation l (getChainsWithDefault l d).
Proof.
  intros Hin. destruct (removeFirst_split d l Hin) as (l1 & l2 & -> & _ & Hrm).
  unfold getChainsWithDefault. rewrite Hrm.
  symmetry. apply Permutation_middle.
Qed.

Lemma reorder_member (l : list Z) (d : Z) :
  d <> 0 -> In d l ->
  reorderChainsBasedOnId (Some l) (Some d) = Some (d :: removeFirst d l).
Proof.
  intros Hd Hin. unfold reorderChainsBasedOnId, JS.truthy.
  destruct (Z.eqb_spec d 0) as [? | _]; [contradiction|].
  apply includes_In in Hin as Hinc. rewrite Hinc.
  destruct l as [| x l']; [destruct Hin|]. reflexivity.
Qed.

Lemma reorder_not_member (l : list Z) (d : Z) :
  ~ In d l -> reorderChainsBasedOnId (Some l) (Some d) = Some l.
Proof.
  intros Hnot. unfold reorderChainsBasedOnId.
  apply includes_not_In in Hnot. rewrite Hnot.
  now rewrite orb_true_r.
Qed.

Lemma reorder_zero (L : option (list Z)) :
  reorderChainsBasedOnId L (Some 0) = L.
Proof. destruct L; reflexivity. Qed.

Lemma reorder_absent (L : option (list Z)) :
  reorderChainsBasedOnId L None = L.
Proof. destruct L; reflexivity. Qed.

Lemma reorder_idempotent (L : option (list Z)) (d : option Z) :
  reorderChainsBasedOnId (reorderChainsBasedOnId L d) d = reorderChainsBasedOnId L d.
Proof.
  destruct L as [l|], d as [d|]; try reflexivity.
  destruct (Z.eq_dec d 0) as [-> | Hd]; [now rewrite !reorder_zero|].
  destruct (in_dec Z.eq_dec d l) as [Hin | Hnot].
  - rewrite (reorder_member l d Hd Hin).
    rewrite (reorder_member (d :: removeFirst d l) d Hd) by now left.
    cbn [removeFirst]. now rewrite Z.eqb_refl.
  - now rewrite !(reorder_not_member l d Hnot).
Qed.

(** Reordering never turns a list empty or non-empty. *)
Lemma isArrayOneOrMore_reorder (L : option (list Z)) (d : option Z) :
  isArrayOneOrMore (reorderChainsBasedOnId L d) = isArrayOneOrMore L.
Proof.
  destruct L as [l|], d as [d|]; try reflexivity.
  unfold reorderChainsBasedOnId.
  destruct (negb (JS.truthy (Some d)) || negb (JS.includes l d)
            || (Z.of_nat (length l) =? 0)) eqn:E; [reflexivity|].
  destruct l; [|reflexivity].
  cbn in E. rewrite ?orb_true_r in E. discriminate.
Qed.

End Reorder.

(** C7, the claim as stated fails: 0 is an element of the list [1; 0], and
    reordering for the desired chain id 0 leaves 1 in front. *)
Lemma reorder_zero_counterexample :
  In 0 [1; 0] /\
  reorderChainsBasedOnId (Some [1; 0]) (Some 0) = Some [1; 0] /\
  hd_error [1; 0] <> Some 0.
Proof.
  split; [right; left; reflexivity|].
  split; [reflexivity | discriminate].
Qed.

(** C7 (amended). For every chain list: with the desired chain id absent or
    0, the list absent or empty, or the id not an element of the list,
    [reorderChainsBasedOnId] returns the list as it is; with an id other than
    0 that is an element, the result is the id followed by the list without
    the id's first occurrence, the rest in its original order, and is a
    rearrangement of the list; reordering the result again for the same id
    changes nothing. *)
Theorem reorder_contract (L : option (list Z)) (l : list Z) (d : Z) :
  reorderChainsBasedOnId L None = L /\
  reorderChainsBasedOnId L (Some 0) = L /\
  reorderChainsBasedOnId None (Some d) = None /\
  reorderChainsBasedOnId (Some []) (Some d) = Some [] /\
  (~ In d l -> reorderChainsBasedOnId (Some l) (Some d) = Some l) /\
  (d <> 0 -> In d l ->
   exists l1 l2,
     l = l1 ++ d :: l2 /\ ~ In d l1 /\
     reorderChainsBasedOnId (Some l) (Some d) = Some (d :: l1 ++ l2) /\
     Permutation l (d :: l1 ++ l2)) /\
  (forall d' : option Z,
     reorderChainsBasedOnId (reorderChainsBasedOnId L d') d'
     = reorderChainsBasedOnId L d').
Proof.
  split; [apply reorder_absent|].
  split; [apply reorder_zero|].
  split; [reflexivity|].
  split; [apply reorder_not_member; intros []|].
  split; [apply reorder_not_member|].
  split; [|intros d'; apply reorder_idempotent].
  intros Hd Hin.
  destruct (removeFirst_split d l Hin) as (l1 & l2 & Hl & Hnot & Hrm).
  exists l1, l2. repeat split; try assumption.
  - rewrite (reorder_member l d Hd Hin). now rewrite Hrm.
  - rewrite <- Hrm. now apply getChainsWithDefault_Permutation.
Qed.

Lemma reorder_contract_witness :
  exists l1 l2,
    [1; 137; 10] = l1 ++ 137 :: l2 /\ ~ In 137 l1 /\
    reorderChainsBasedOnId (Some [1; 137; 10]) (Some 137) = Some (137 :: l1 ++ l2) /\
    Permutation [1; 137; 10] (137 :: l1 ++ l2).
Proof.
  destruct (reorder_contract None [1; 137; 10] 137) as (_ & _ & _ & _ & _ & H & _).
  apply H.
  - discriminate.
  - right; left; reflexivity.
Defined.

(* ===================================================================== *)
(** * Chain-set validation *)
(* ===================================================================== *)

Lemma getChainProps_eq (cfg : Config) (d : option Z) :
  getChainProps cfg d =
  if isArrayOneOrMore (options_chains cfg)
     || isArrayOneOrMore (options_optionalChains cfg)
  then inr {| chains := reorderChainsBasedOnId (options_chains cfg)
                          (orDefault d (defaultChainId cfg));
              optionalChains := reorderChainsBasedOnId (options_optionalChains cfg)
                                  (orDefault d (defaultChainId cfg)) |}
  else inl NoChainsError.
Proof.
  unfold getChainProps. rewrite !isArrayOneOrMore_reorder.
  destruct (isArrayOneOrMore (options_chains cfg)),
           (isArrayOneOrMore (options_optionalChains cfg)); reflexivity.
Qed.

(** C2, the claim as stated fails. With no required chain and the optional
    chain 1, the result keeps the empty list under [chains] and the list [1]
    under [optionalChains]: the lists are not exchanged. And the
    configuration error is not raised before all network activity: with an
    endpoint map configured, [initializeProvider] has called and awaited the
    endpoint selection, which probes the two candidates of chain 1, when
    [getChainProps] throws. *)
Lemma validate_swap_counterexample :
  validate (Some []) (Some [1])
    = inr {| chains := Some []; optionalChains := Some [1] |} /\
  validate (Some []) (Some [1])
    <> inr {| chains := Some [1]; optionalChains := Some [] |} /\
  exists w,
    run Examples.cfg_no_chains initial
      [CallActivate None; ImportSettled 0 None;
       BestUrlMapSettled 0 (inr [(1, "https://b.example")])] = Some w /\
    promises w = [Rejected NoChainsError] /\
    log w = [C_import;
             C_getBestUrlMap [(1, ["https://a.example"; "https://b.example"])] 5000].
Proof.
  split; [reflexivity|].
  split; [discriminate|].
  eexists. split; [reflexivity|]. split; reflexivity.
Qed.

(** C2 (amended). Chain-set validation: if the required or the optional
    list is non-empty, the result is the pair as configured, the required
    list under [chains] and the optional list under [optionalChains]; the
    lists are never exchanged. Else it throws the configuration error. So
    validate([1], []) and validate([], [1]) succeed, each with exactly one
    non-empty list, and validate([], []) throws. With a desired or default
    chain id both lists are reordered for it. The check runs when the
    argument of the provider's [init] is built: on the error the promise of
    [initializeProvider] is rejected and [init] is not called. That is after
    the module import and the endpoint selection, in every state of the
    connector and also where both lists are empty: a construction begins
    with the import, its promise pending; with an endpoint map configured,
    when the import has settled the endpoint selection is called and the
    promise is still pending, and only when the selection has settled is
    the promise rejected with the configuration error; with no endpoint map
    it is rejected when the import has settled. *)
Theorem validate_contract (required optional : option (list Z)) :
  validate required optional
  = (if isArrayOneOrMore required || isArrayOneOrMore optional
     then inr {| chains := required; optionalChains := optional |}
     else inl NoChainsError) /\
  validate (Some [1]) (Some []) = inr {| chains := Some [1]; optionalChains := Some [] |} /\
  validate (Some []) (Some [1]) = inr {| chains := Some []; optionalChains := Some [1] |} /\
  validate (Some []) (Some []) = inl NoChainsError /\
  forall (cfg : Config) (d : option Z),
    getChainProps cfg d
    = match validate (options_chains cfg) (options_optionalChains cfg) with
      | inr props =>
          inr {| chains := reorderChainsBasedOnId (chains props)
                             (orDefault d (defaultChainId cfg));
                 optionalChains := reorderChainsBasedOnId (optionalChains props)
                                     (orDefault d (defaultChainId cfg)) |}
      | inl e => inl e
      end /\
    (forall promise rpcMap w,
      initializeProvider_init cfg promise d rpcMap w
      = match getChainProps cfg d with
        | inr props => settle promise (Pending AwaitInit) (call (C_init props rpcMap) w)
        | inl _ => settle promise (Rejected NoChainsError) w
        end) /\
    (forall w,
       eagerConnection w = None ->
       promises (snd (isomorphicInitialize cfg d w))
         !! fst (isomorphicInitialize cfg d w)
       = Some (Pending (AwaitImport (orDefault d (defaultChainId cfg)))) /\
       log (snd (isomorphicInitialize cfg d w)) = log w ++ [C_import]) /\
    (forall w promise m r,
       validate (options_chains cfg) (options_optionalChains cfg) = inl NoChainsError ->
       this_rpcMap cfg = Some m ->
       promises w !! promise = Some (Pending (AwaitImport d)) ->
       exists w1 w2,
         step cfg w (ImportSettled promise None) = Some w1 /\
         promises w1 !! promise = Some (Pending (AwaitBestUrlMap d)) /\
         log w1 = log w ++ [C_getBestUrlMap m (this_timeout cfg)] /\
         step cfg w1 (BestUrlMapSettled promise (inr r)) = Some w2 /\
         promises w2 !! promise = Some (Rejected NoChainsError) /\
         log w2 = log w1) /\
    (forall w promise,
       validate (options_chains cfg) (options_optionalChains cfg) = inl NoChainsError ->
       this_rpcMap cfg = None ->
       promises w !! promise = Some (Pending (AwaitImport d)) ->
       exists w1,
         step cfg w (ImportSettled promise None) = Some w1 /\
         promises w1 !! promise = Some (Rejected NoChainsError) /\
         log w1 = log w).
Proof.
  assert (Hv : forall r o,
             validate r o
             = if isArrayOneOrMore r || isArrayOneOrMore o
               then inr {| chains := r; optionalChains := o |}
               else inl NoChainsError).
  { intros r o. unfold validate. rewrite getChainProps_eq. cbn.
    now rewrite !reorder_absent. }
  split; [apply Hv|].
  split; [reflexivity|]. split; [reflexivity|]. split; [reflexivity|].
  intros cfg d.
  assert (Hprops : getChainProps cfg d
                   = match validate (options_chains cfg) (options_optionalChains cfg) with
                     | inr props =>
                         inr {| chains := reorderChainsBasedOnId (chains props)
                                            (orDefault d (defaultChainId cfg));
                                optionalChains :=
                                  reorderChainsBasedOnId (optionalChains props)
                                    (orDefault d (defaultChainId cfg)) |}
                     | inl e => inl e
                     end).
  { rewrite Hv, getChainProps_eq.
    destruct (isArrayOneOrMore (options_chains cfg)
              || isArrayOneOrMore (options_optionalChains cfg)); reflexivity. }
  split; [exact Hprops|].
  split; [|split; [|split]].
  - intros promise rpcMap w. unfold initializeProvider_init.
    rewrite getChainProps_eq.
    destruct (isArrayOneOrMore (options_chains cfg)
              || isArrayOneOrMore (options_optionalChains cfg)); reflexivity.
  - intros w He. unfold isomorphicInitialize, initializeProvider. rewrite He.
    cbn. rewrite list_lookup_middle by reflexivity.
    split; [|reflexivity]. now destruct d, (defaultChainId cfg).
  - intros w promise m r Hnone Hrpc Hp.
    pose proof (lookup_lt_Some _ _ _ Hp) as Hlt.
    exists (settle promise (Pending (AwaitBestUrlMap d))
              (call (C_getBestUrlMap m (this_timeout cfg)) w)).
    exists (settle promise (Rejected NoChainsError)
              (settle promise (Pending (AwaitBestUrlMap d))
                 (call (C_getBestUrlMap m (this_timeout cfg)) w))).
    assert (Hp1 : promises (settle promise (Pending (AwaitBestUrlMap d))
                              (call (C_getBestUrlMap m (this_timeout cfg)) w))
                    !! promise = Some (Pending (AwaitBestUrlMap d)))
      by (cbn; now apply list_lookup_insert_eq).
    split.
    { cbn [step]. rewrite Hp. unfold initializeProvider_imported. now rewrite Hrpc. }
    split; [exact Hp1|]. split; [reflexivity|].
    split.
    { cbn [step]. rewrite Hp1. unfold initializeProvider_init.
      now rewrite Hprops, Hnone. }
    split; [|reflexivity].
    cbn. apply list_lookup_insert_eq. now rewrite length_insert.
  - intros w promise Hnone Hrpc Hp.
    pose proof (lookup_lt_Some _ _ _ Hp) as Hlt.
    exists (settle promise (Rejected NoChainsError) w).
    split.
    { cbn [step]. rewrite Hp. unfold initializeProvider_imported, initializeProvider_init.
      now rewrite Hrpc, Hprops, Hnone. }
    split; [|reflexivity].
    cbn. now apply list_lookup_insert_eq.
Qed.

(** With no chain configured and an endpoint map for chain 1: the import of
    a construction settles and the endpoint selection is called; the
    selection settles and the promise is rejected. *)
Lemma validate_contract_witness :
  exists w1 w2,
    step Examples.cfg_no_chains
      (Examples.after Examples.cfg_no_chains [CallActivate None])
      (ImportSettled 0 None) = Some w1 /\
    log w1 = [C_import;
              C_getBestUrlMap [(1, ["https://a.example"; "https://b.example"])] 5000] /\
    step Examples.cfg_no_chains w1
      (BestUrlMapSettled 0 (inr [(1, "https://b.example")])) = Some w2 /\
    promises w2 !! 0%nat = Some (Rejected NoChainsError).
Proof.
  destruct (validate_contract None None) as (_ & _ & _ & _ & H).
  destruct (H Examples.cfg_no_chains None) as (_ & _ & _ & Hsel & _).
  destruct (Hsel (Examples.after Examples.cfg_no_chains [CallActivate None]) 0%nat
              [(1, ["https://a.example"; "https://b.example"])]
              [(1, "https://b.example")] eq_refl eq_refl eq_refl)
    as (w1 & w2 & H1 & _ & Hlog & H2 & Hrej & _).
  exists w1, w2. split; [exact H1|]. split; [exact Hlog|]. split; [exact H2 | exact Hrej].
Defined.

(* ===================================================================== *)
(** * The chain-changed listener *)
(* ===================================================================== *)

Lemma parseInt_hex_prefixed (ds : list Z) :
  JS.inRadix 16 ds -> ds <> [] ->
  JS.parseInt ("0x" ++ JS.stringOfDigits ds) 16 = JS.Int (JS.mathInt 16 ds).
Proof.
  intros Hds Hne. unfold JS.parseInt.
  change (JS.trimStart ("0x" ++ JS.stringOfDigits ds))
    with ("0x" ++ JS.stringOfDigits ds)%string.
  change (JS.stripSign ("0x" ++ JS.stringOfDigits ds))
    with (1, ("0x" ++ JS.stringOfDigits ds)%string).
  cbv iota beta.
  change (JS.stripHexPrefix ("0x" ++ JS.stringOfDigits ds))
    with (JS.stringOfDigits ds).
  change ((16 <? 2) || (36 <? 16)) with false. change (16 =? 16) with true.
  cbv iota.
  rewrite JSFacts.radixDigits_stringOfDigits by (assumption || lia).
  destruct ds; [congruence|]. f_equal. lia.
Qed.

(** C3, the claim as stated fails: the decimal representation of chain id
    56 is the string 56, and the listener reports 86. *)
Lemma chainChanged_decimal_counterexample :
  JS.toStr 56 = "56" /\
  chainChangedListener "56" initial = call (A_update (Some (JS.Int 86)) None) initial /\
  chainChangedListener "56" initial <> call (A_update (Some (JS.Int 56)) None) initial.
Proof.
  split; [reflexivity|]. split; [reflexivity|]. discriminate.
Qed.

(** C3 (amended). The chain-changed listener reads its payload in base 16.
    For a chain id [n] from 0 to [Number.MAX_SAFE_INTEGER]: given the
    hexadecimal representation of [n], with or without the prefix 0x, it
    reports [n] to Actions through update({chainId}). The decimal
    representation of [n] is read in base 16 as well: the number [m] that
    the decimal digits of [n] denote in base 16 is at least [n], and is [n]
    only for an id below 10; where [m] is a safe integer, as it is for every
    [n] below 10 ^ 13, the listener reports [m]. *)
Theorem chainChanged_reads_hexadecimal (w : World) (n : Z) :
  0 <= n <= JS.MAX_SAFE_INTEGER ->
  chainChangedListener ("0x" ++ JS.toString 16 n) w
    = call (A_update (Some (JS.Int n)) None) w /\
  chainChangedListener (JS.toString 16 n) w
    = call (A_update (Some (JS.Int n)) None) w /\
  JS.toStr n = JS.stringOfDigits (JS.digitsOf 10 n) /\
  n <= JS.mathInt 16 (JS.digitsOf 10 n) /\
  (JS.mathInt 16 (JS.digitsOf 10 n) = n <-> n < 10) /\
  (n < 10 ^ 13 -> JS.mathInt 16 (JS.digitsOf 10 n) <= JS.MAX_SAFE_INTEGER) /\
  (JS.mathInt 16 (JS.digitsOf 10 n) <= JS.MAX_SAFE_INTEGER ->
   chainChangedListener (JS.toStr n) w
     = call (A_update (Some (JS.Int (JS.mathInt 16 (JS.digitsOf 10 n)))) None) w).
Proof.
  intros [Hn Hmax]. unfold chainChangedListener, JS.toStr, JS.toString.
  destruct (Z.ltb_spec n 0) as [? | _]; [lia|].
  pose proof (JSFacts.digitsOf_inRadix 16 n ltac:(lia)) as H16.
  pose proof (JSFacts.digitsOf_inRadix 10 n ltac:(lia)) as H10.
  pose proof (JSFacts.digitsOf_value 10 n ltac:(lia) Hn) as Hval.
  pose proof (JSFacts.hex_reading_ge _ H10) as Hge. rewrite Hval in Hge.
  split; [|split; [|split; [|split; [|split; [|split]]]]].
  - rewrite parseInt_hex_prefixed by auto using JSFacts.digitsOf_nonempty.
    now rewrite JSFacts.digitsOf_value by lia.
  - rewrite (JSFacts.parseInt_stringOfDigits 16)
      by (auto using JSFacts.digitsOf_nonempty; lia).
    now rewrite JSFacts.digitsOf_value by lia.
  - reflexivity.
  - lia.
  - split.
    + intros Heq. destruct (Z.lt_ge_cases n 10) as [? | Hbig]; [assumption|].
      pose proof (JSFacts.hex_reading_gt _ H10) as Hgt. rewrite Hval in Hgt. lia.
    + intros Hsmall. unfold JS.digitsOf, JS.mathInt. cbn [JS.toDigits].
      rewrite Z.div_small, Z.mod_small by lia. reflexivity.
  - intros Hsmall. apply JSFacts.hex_reading_safe. lia.
  - intros _.
    rewrite (JSFacts.parseInt_stringOfDigits 10)
      by (auto using JSFacts.digitsOf_nonempty; lia).
    reflexivity.
Qed.

(** Chain id 56: 0x38 and 38 are reported as 56, and 56 as 86. *)
Lemma chainChanged_reads_hexadecimal_witness :
  0 <= 56 <= JS.MAX_SAFE_INTEGER /\
  chainChangedListener "0x38" initial = call (A_update (Some (JS.Int 56)) None) initial /\
  chainChangedListener "38" initial = call (A_update (Some (JS.Int 56)) None) initial /\
  chainChangedListener "56" initial = call (A_update (Some (JS.Int 86)) None) initial.
Proof.
  assert (H : 0 <= 56 <= JS.MAX_SAFE_INTEGER) by (vm_compute; split; discriminate).
  split; [exact H|].
  destruct (chainChanged_reads_hexadecimal initial 56 H)
    as (Hx & Hh & _ & _ & _ & Hsafe & Hd).
  split; [exact Hx|]. split; [exact Hh|].
  apply Hd. apply Hsafe. reflexivity.
Defined.

(* ===================================================================== *)
(** * The lifecycle: how each turn changes the connector *)
(* ===================================================================== *)

Section Lifecycle.

Variable cfg : Config.

Lemma connector_unchanged_refl (w : World) : connector_unchanged w w.
Proof. repeat split. Qed.

Lemma connector_unchanged_trans (w1 w2 w3 : World) :
  connector_unchanged w1 w2 -> connector_unchanged w2 w3 -> connector_unchanged w1 w3.
Proof.
  unfold connector_unchanged. intros (? & ? & ? & ?) (? & ? & ? & ?).
  repeat split; congruence.
Qed.

Lemma call_unchanged (c : Call) (w : World) : connector_unchanged w (call c w).
Proof. repeat split. Qed.

Lemma onProvider_unchanged (p : nat) (f : Provider -> Provider) (w : World) :
  connector_unchanged w (onProvider p f w).
Proof. repeat split. Qed.

Lemma continue_unchanged (t : nat) (v : Task) (w : World) :
  connector_unchanged w (continue t v w).
Proof. repeat split. Qed.

Lemma settle_unchanged (promise : nat) (v : Promise) (w : World) :
  connector_unchanged w (settle promise v w).
Proof.
  repeat split. unfold settle; cbn. apply length_insert.
Qed.

Lemma startActivation_unchanged (w : World) :
  connector_unchanged w (snd (startActivation w)).
Proof. repeat split. Qed.

Lemma deactivate_deactivated (w : World) : connector_deactivated w (deactivate w).
Proof.
  unfold deactivate, connector_deactivated.
  destruct (provider w); repeat split.
Qed.

Lemma invoke_unchanged (l : Listener) (e : ProviderEvent) (w : World) :
  connector_unchanged w (invoke cfg l e w).
Proof.
  destruct l, e; try apply connector_unchanged_refl; cbn.
  - unfold disconnectListener. destruct error; [destruct (onError cfg)|]; repeat split.
  - repeat split.
  - repeat split.
  - repeat split.
Qed.

Lemma emit_unchanged (p : nat) (e : ProviderEvent) (w w' : World) :
  emit cfg p e w = Some w' -> connector_unchanged w w'.
Proof.
  unfold emit. destruct (providers w !! p) as [pr|]; [|discriminate].
  intros [= <-].
  eapply connector_unchanged_trans; [apply (onProvider_unchanged p (providerAtEvent e))|].
  generalize (onProvider p (providerAtEvent e) w) as w0.
  generalize (listeners pr) as ls. clear pr w.
  induction ls as [| r ls IH]; intros w; cbn [fold_left].
  - apply connector_unchanged_refl.
  - eapply connector_unchanged_trans; [|apply IH].
    destruct (String.eqb (fst r) (eventName e));
      [apply invoke_unchanged | apply connector_unchanged_refl].
Qed.

Lemma providerChanges_unchanged (p : nat) (now : Provider) (w w' : World) :
  providerChanges p now w = Some w' -> connector_unchanged w w'.
Proof.
  unfold providerChanges. destruct (providers w !! p); [|discriminate].
  intros [= <-]. apply onProvider_unchanged.
Qed.

Lemma initializeProvider_init_unchanged promise d m (w : World) :
  connector_unchanged w (initializeProvider_init cfg promise d m w).
Proof.
  unfold initializeProvider_init. destruct (getChainProps cfg d).
  - apply settle_unchanged.
  - eapply connector_unchanged_trans; [apply call_unchanged | apply settle_unchanged].
Qed.

Lemma initializeProvider_imported_unchanged promise d (w : World) :
  connector_unchanged w (initializeProvider_imported cfg promise d w).
Proof.
  unfold initializeProvider_imported. destruct (this_rpcMap cfg).
  - eapply connector_unchanged_trans; [apply call_unchanged | apply settle_unchanged].
  - apply initializeProvider_init_unchanged.
Qed.

Lemma initializeProvider_created_unchanged promise pr (w : World) :
  connector_unchanged w (initializeProvider_created promise pr w).
Proof.
  unfold initializeProvider_created, handleProviderEvents.
  eapply connector_unchanged_trans; [|apply settle_unchanged].
  repeat split.
Qed.

(** What [isomorphicInitialize] does to the connector: nothing when a handle
    is memoised, else one construction is started. *)
Lemma isomorphicInitialize_memoised (d : option Z) (w : World) (promise : nat) :
  eagerConnection w = Some promise -> isomorphicInitialize cfg d w = (promise, w).
Proof. intros H. unfold isomorphicInitialize. now rewrite H. Qed.

Lemma isomorphicInitialize_fresh (d : option Z) (w : World) :
  eagerConnection w = None ->
  isomorphicInitialize cfg d w
  = (length (promises w),
     set_eagerConnection (Some (length (promises w)))
       (set_promises
          (promises w ++ [Pending (AwaitImport (orDefault d (defaultChainId cfg)))])
          (call C_import w))).
Proof.
  intros H. unfold isomorphicInitialize. rewrite H. cbn.
  now destruct d, (defaultChainId cfg).
Qed.

Lemma isomorphicInitialize_shape (d : option Z) (w : World) :
  connector_unchanged w (snd (isomorphicInitialize cfg d w)) \/
  construction_started w (snd (isomorphicInitialize cfg d w)).
Proof.
  destruct (eagerConnection w) as [promise|] eqn:E.
  - left. rewrite (isomorphicInitialize_memoised d w promise E).
    apply connector_unchanged_refl.
  - right. rewrite (isomorphicInitialize_fresh d w E).
    unfold construction_started; cbn. rewrite length_app; cbn.
    repeat split; auto; lia.
Qed.

Lemma connectEagerly_shape (w : World) :
  connector_unchanged w (connectEagerly cfg w) \/
  construction_started w (connectEagerly cfg w).
Proof.
  unfold connectEagerly, startActivation.
  destruct (isomorphicInitialize_shape None (call A_startActivation w)) as [H | H];
    destruct (isomorphicInitialize cfg None (call A_startActivation w)) as [promise w1];
    cbn [snd] in H; [left | right]; exact H.
Qed.

Lemma activate_shape (d : option Z) (w : World) :
  connector_unchanged w (activate cfg d w) \/
  construction_started w (activate cfg d w).
Proof.
  unfold activate.
  destruct (isomorphicInitialize_shape d w) as [H | H];
    destruct (isomorphicInitialize cfg d w) as [promise w1];
    cbn [snd] in H; [left | right]; exact H.
Qed.

Lemma catch_deactivate_deactivated (t : nat) (v : Task) (w : World) :
  connector_deactivated w (catch_deactivate t v w).
Proof.
  unfold catch_deactivate. pose proof (deactivate_deactivated w) as H.
  exact H.
Qed.

Lemma activate_session_unchanged t p pr s d (w : World) :
  connector_unchanged w (activate_session cfg t p pr s d w).
Proof.
  unfold activate_session. destruct d as [d|]; [|repeat split].
  destruct (negb (JS.truthy (Some d)) || (d =? chainId pr)); [repeat split|].
  destruct (negb (isConnectedToDesiredChain s d)); [|repeat split].
  destruct (isOptionalChain cfg d); repeat split.
Qed.

(** Every turn leaves the connector's fields alone, or runs [deactivate]
    once, or starts one construction where none was memoised. *)
Lemma step_shape (w w' : World) (i : Input) :
  step cfg w i = Some w' ->
  connector_unchanged w w' \/ connector_deactivated w w' \/ construction_started w w'.
Proof.
  destruct i as [| d | | promise r | promise r | promise r | t r | t r | t | p e | p now];
    cbn [step].
  - intros [= <-]. destruct (connectEagerly_shape w); auto.
  - intros [= <-]. destruct (activate_shape d w); auto.
  - intros [= <-]. right; left. apply deactivate_deactivated.
  - destruct (promises w !! promise) as [[[d | d |] | |]|]; try discriminate.
    destruct r; intros [= <-]; left;
      [apply settle_unchanged | apply initializeProvider_imported_unchanged].
  - destruct (promises w !! promise) as [[[d | d |] | |]|]; try discriminate.
    destruct r; intros [= <-]; left;
      [apply settle_unchanged | apply initializeProvider_init_unchanged].
  - destruct (promises w !! promise) as [[[d | d |] | |]|]; try discriminate.
    destruct r; intros [= <-]; left;
      [apply settle_unchanged | apply initializeProvider_created_unchanged].
  - destruct (tasks w !! t) as [[]|]; try discriminate.
    intros [= <-]. unfold activate_enabled. destruct r.
    + right; left. apply catch_deactivate_deactivated.
    + left. repeat split.
  - destruct (tasks w !! t) as [[]|]; try discriminate.
    intros [= <-]. left. apply continue_unchanged.
  - destruct (tasks w !! t) as [[k promise | k e | d promise | | | k e | |]|];
      try discriminate.
    + destruct (promises w !! promise) as [r|]; [|discriminate].
      unfold connectEagerly_initialized.
      destruct r as [| p | e]; [discriminate | |].
      * destruct (providers w !! p) as [pr|]; [|discriminate].
        destruct (session pr); intros [= <-].
        -- left. repeat split.
        -- right; left. apply catch_deactivate_deactivated.
      * intros [= <-]. right; left. apply catch_deactivate_deactivated.
    + intros [= <-]. left. repeat split.
    + destruct (promises w !! promise) as [r|]; [|discriminate].
      unfold activate_initialized.
      destruct r as [| p | e]; [discriminate | |].
      * destruct (providers w !! p) as [pr|]; [|discriminate].
        destruct (session pr); intros [= <-]; left.
        -- apply activate_session_unchanged.
        -- repeat split.
      * intros [= <-]. left. apply continue_unchanged.
    + intros [= <-]. left. repeat split.
  - intros H. left. eapply emit_unchanged; eassumption.
  - intros H. left. eapply providerChanges_unchanged; eassumption.
Qed.

End Lifecycle.

(* ===================================================================== *)
(** * Single-flight construction *)
(* ===================================================================== *)

Section SingleFlight.

Variable cfg : Config.

Lemma initial_invariant : single_flight_invariant initial.
Proof.
  unfold single_flight_invariant; cbn. repeat split; try lia. discriminate.
Qed.

Lemma step_invariant (w w' : World) (i : Input) :
  step cfg w i = Some w' -> single_flight_invariant w -> single_flight_invariant w'.
Proof.
  intros Hstep (Hp & Hle & Hnone & Hlast).
  unfold single_flight_invariant.
  destruct (step_shape cfg w w' i Hstep)
    as [(Ep & Ee & El & Ed) | [(Ep & Ee & El & Ed) | (Hmemo & Ep & Ee & El & Ed)]].
  - rewrite Ep, Ee, El, Ed. auto.
  - rewrite Ep, Ee, El, Ed. repeat split; try lia. discriminate.
  - rewrite Ep, Ee, El, Ed. specialize (Hnone Hmemo).
    repeat split; try assumption; try lia; [discriminate|].
    intros promise [= <-]. reflexivity.
Qed.

Lemma run_invariant (inputs : list Input) :
  forall w w', run cfg w inputs = Some w' ->
    single_flight_invariant w -> single_flight_invariant w'.
Proof.
  induction inputs as [| i inputs IH]; intros w w'; cbn [run].
  - now intros [= <-].
  - destruct (step cfg w i) as [w1|] eqn:Hstep; [|discriminate].
    intros Hrun Hinv. eapply IH; [eassumption|].
    eapply step_invariant; eassumption.
Qed.

(** The field [provider] is never assigned: it is unset after every run. *)
Lemma provider_never_set (inputs : list Input) (w : World) :
  run cfg initial inputs = Some w -> provider w = None.
Proof.
  intros Hrun. now destruct (run_invariant inputs _ _ Hrun initial_invariant).
Qed.

Lemma connectEagerly_memoised (w : World) (promise : nat) :
  eagerConnection w = Some promise ->
  connectEagerly cfg w
  = set_tasks (tasks w ++ [CE_awaitInitialize
                             (length (List.filter isStartActivation (log w))) promise])
      (call A_startActivation w).
Proof.
  intros H. unfold connectEagerly, startActivation.
  rewrite (isomorphicInitialize_memoised cfg None _ promise) by exact H.
  reflexivity.
Qed.

Lemma activate_memoised (d : option Z) (w : World) (promise : nat) :
  eagerConnection w = Some promise ->
  activate cfg d w = set_tasks (tasks w ++ [AC_awaitInitialize d promise]) w.
Proof.
  intros H. unfold activate.
  now rewrite (isomorphicInitialize_memoised cfg d _ promise) by exact H.
Qed.

End SingleFlight.

(** C6. Single flight, after any run of the connector from its initial
    state, whatever the interleaving of calls, settlements and resumptions:
    constructions started exceed the runs of [deactivate] by at most one; a
    memoised handle is the promise of the last construction;
    [isomorphicInitialize] returns the memoised handle and changes nothing
    while one exists, so a call of [connectEagerly] or [activate] then awaits
    that same promise and starts no construction; a turn starts a
    construction only when no handle is memoised, and then exactly one; a
    memoised handle stays through every turn that does not run [deactivate];
    after [deactivate] no handle is memoised and the next
    [isomorphicInitialize] starts a new construction. *)
Theorem construction_is_single_flight (cfg : Config) (inputs : list Input) (w : World) :
  run cfg initial inputs = Some w ->
  (length (promises w) <= S (deactivations w))%nat /\
  (forall promise, eagerConnection w = Some promise ->
     S promise = length (promises w) /\
     (forall d, isomorphicInitialize cfg d w = (promise, w)) /\
     (exists k, tasks (connectEagerly cfg w)
                = tasks w ++ [CE_awaitInitialize k promise]) /\
     promises (connectEagerly cfg w) = promises w /\
     (forall d, tasks (activate cfg d w) = tasks w ++ [AC_awaitInitialize d promise] /\
                promises (activate cfg d w) = promises w)) /\
  (forall i w', step cfg w i = Some w' ->
     (length (promises w') = length (promises w) \/
      (eagerConnection w = None /\
       length (promises w') = S (length (promises w)) /\
       eagerConnection w' = Some (length (promises w)))) /\
     (forall promise, eagerConnection w = Some promise ->
        eagerConnection w' = Some promise \/
        (eagerConnection w' = None /\ deactivations w' = S (deactivations w)))) /\
  eagerConnection (deactivate w) = None /\
  (forall d,
     fst (isomorphicInitialize cfg d (deactivate w)) = length (promises w) /\
     promises (snd (isomorphicInitialize cfg d (deactivate w)))
     = promises w ++ [Pending (AwaitImport (orDefault d (defaultChainId cfg)))] /\
     eagerConnection (snd (isomorphicInitialize cfg d (deactivate w)))
     = Some (length (promises w))).
Proof.
  intros Hrun.
  destruct (run_invariant cfg inputs _ _ Hrun initial_invariant)
    as (Hp & Hle & Hnone & Hlast).
  split; [exact Hle|]. split; [|split; [|split]].
  - intros promise Hmemo. split; [auto|]. split; [|split; [|split]].
    + intros d. now apply isomorphicInitialize_memoised.
    + rewrite (connectEagerly_memoised cfg w promise Hmemo). eexists; reflexivity.
    + now rewrite (connectEagerly_memoised cfg w promise Hmemo).
    + intros d. now rewrite (activate_memoised cfg d w promise Hmemo).
  - intros i w' Hstep.
    destruct (step_shape cfg w w' i Hstep)
      as [(Ep & Ee & El & Ed) | [(Ep & Ee & El & Ed) | (Hmemo & Ep & Ee & El & Ed)]].
    + split; [now left|]. intros promise Hm. left. congruence.
    + split; [now left|]. intros promise Hm. right. auto.
    + split; [right; auto|]. intros promise Hm. congruence.
  - now destruct (deactivate_deactivated w) as (_ & ? & _).
  - intros d.
    assert (Hd : eagerConnection (deactivate w) = None)
      by now destruct (deactivate_deactivated w) as (_ & ? & _).
    rewrite (isomorphicInitialize_fresh cfg d _ Hd). cbn [fst snd].
    unfold deactivate. rewrite Hp. cbn. auto.
Qed.

(** A run in which [connectEagerly] and [activate(5)] are both called
    before the construction completes: the second caller is handed the first
    caller's promise. *)
Lemma construction_is_single_flight_witness :
  isomorphicInitialize Examples.cfg_required (Some 1)
    (activate Examples.cfg_required (Some 5)
       (connectEagerly Examples.cfg_required initial))
  = (0%nat, activate Examples.cfg_required (Some 5)
              (connectEagerly Examples.cfg_required initial)).
Proof.
  destruct (construction_is_single_flight Examples.cfg_required
              [CallConnectEagerly; CallActivate (Some 5)]
              (activate Examples.cfg_required (Some 5)
                 (connectEagerly Examples.cfg_required initial))
              eq_refl) as (_ & H & _).
  destruct (H 0%nat eq_refl) as (_ & Hsame & _).
  exact (Hsame (Some 1)).
Defined.

(* ===================================================================== *)
(** * Deactivation *)
(* ===================================================================== *)

Lemma deactivate_without_provider (w : World) :
  provider w = None ->
  deactivate w
  = count_deactivation
      (call A_resetState (set_eagerConnection None (set_provider None w))).
Proof. intros H. unfold deactivate. now rewrite H. Qed.

(** C9. [deactivate] is idempotent: in any state of the connector, also
    with no provider and no memoised handle, a call returns (the operation
    has no failing path), and so does a second call right after it; after
    each of the two the provider reference and the memoised handle are unset
    and the last call on Actions is resetState(); the second call changes
    nothing else. *)
Theorem deactivate_idempotent (cfg : Config) (w : World) :
  step cfg w CallDeactivate = Some (deactivate w) /\
  step cfg (deactivate w) CallDeactivate = Some (deactivate (deactivate w)) /\
  provider (deactivate w) = None /\
  eagerConnection (deactivate w) = None /\
  (exists l, log (deactivate w) = log w ++ l ++ [A_resetState]) /\
  provider (deactivate (deactivate w)) = None /\
  eagerConnection (deactivate (deactivate w)) = None /\
  log (deactivate (deactivate w)) = log (deactivate w) ++ [A_resetState] /\
  providers (deactivate (deactivate w)) = providers (deactivate w) /\
  promises (deactivate (deactivate w)) = promises (deactivate w) /\
  tasks (deactivate (deactivate w)) = tasks (deactivate w) /\
  deactivate initial
  = {| provider := None; eagerConnection := None; promises := []; providers := [];
       tasks := []; log := [A_resetState]; deactivations := 1 |}.
Proof.
  assert (Hp : provider (deactivate w) = None)
    by now destruct (deactivate_deactivated w).
  split; [reflexivity|]. split; [reflexivity|].
  split; [exact Hp|].
  split; [now destruct (deactivate_deactivated w) as (_ & ? & _)|].
  split.
  { unfold deactivate. destruct (provider w) as [p|]; cbn.
    - exists [C_disconnect p]. now rewrite <- app_assoc.
    - now exists []. }
  rewrite (deactivate_without_provider (deactivate w) Hp). cbn.
  repeat split.
Qed.

(* ===================================================================== *)
(** * Activation against an existing session *)
(* ===================================================================== *)

Section ExistingSession.

Variable cfg : Config.

Lemma continue_lookup (t : nat) (v : Task) (w : World) :
  (t < length (tasks w))%nat -> tasks (continue t v w) !! t = Some v.
Proof. intros H. unfold continue; cbn. now apply list_lookup_insert_eq. Qed.

Lemma resume_with_session (w : World) (t promise p : nat) (d : option Z)
  (pr : Provider) (s : Session) :
  tasks w !! t = Some (AC_awaitInitialize d promise) ->
  promises w !! promise = Some (Resolved p) ->
  providers w !! p = Some pr ->
  session pr = Some s ->
  step cfg w (Resume t) = Some (activate_session cfg t p pr s d w).
Proof.
  intros Ht Hpromise Hp Hs. cbn [step]. rewrite Ht, Hpromise.
  unfold activate_initialized. now rewrite Hp, Hs.
Qed.

(** The early return of line 179. *)
Lemma activate_session_return (w : World) (t p : nat) (d : option Z)
  (pr : Provider) (s : Session) :
  JS.truthy d = false \/ d = Some (chainId pr) ->
  activate_session cfg t p pr s d w = continue t Fulfilled (call (C_consoleLog p) w).
Proof.
  intros H. unfold activate_session. destruct d as [d|]; [|reflexivity].
  destruct H as [-> | [= ->]]; [reflexivity|].
  now rewrite Z.eqb_refl, orb_true_r.
Qed.




(** The first part of [activate] calls neither Actions nor [request]. *)
Lemma activate_log (d : option Z) (w : World) :
  log (activate cfg d w) = log w \/ log (activate cfg d w) = log w ++ [C_import].
Proof.
  unfold activate. destruct (eagerConnection w) as [promise|] eqn:E.
  - rewrite (isomorphicInitialize_memoised cfg d w promise E). now left.
  - rewrite (isomorphicInitialize_fresh cfg d w E). now right.
Qed.

(** The continuation of a construction makes at most one call, and that
    call goes neither to Actions nor to the provider's [request]. *)
Lemma construction_log (w w' : World) (i : Input) :
  isConstructionInput i = true -> step cfg w i = Some w' ->
  exists c, (isActionsCall c = false /\ isRequestCall c = false) /\
            (log w' = log w \/ log w' = log w ++ [c]).
Proof.
  destruct i as [| | | promise r | promise r | promise r | | | | |];
    try discriminate; intros _; cbn [step];
    (destruct (promises w !! promise) as [[[d0 | d0 |] | |]|]; try discriminate).
  - destruct r; intros [= <-].
    + exists C_import. split; [auto|]. now left.
    + unfold initializeProvider_imported, initializeProvider_init.
      destruct (this_rpcMap cfg) as [m|].
      * exists (C_getBestUrlMap m (this_timeout cfg)). split; [auto|]. now right.
      * destruct (getChainProps cfg d0) as [e | props].
        -- exists C_import. split; [auto|]. now left.
        -- exists (C_init props None). split; [auto|]. now right.
  - destruct r as [e | m]; intros [= <-].
    + exists C_import. split; [auto|]. now left.
    + unfold initializeProvider_init.
      destruct (getChainProps cfg d0) as [e | props].
      * exists C_import. split; [auto|]. now left.
      * exists (C_init props (Some m)). split; [auto|]. now right.
  - destruct r as [e | pr]; intros [= <-];
      exists C_import; (split; [auto|]); now left.
Qed.

End ExistingSession.

(** C8. For every connector whose provider has a session, [activate] with
    the desired chain id absent or equal to the provider's current chain id
    returns successfully as a no-op. The call itself ([isomorphicInitialize])
    makes no call on Actions and no request; when it resumes on the provider
    it is fulfilled, and all it has done is the [console.log] of line 178: no
    chain-switch request, no startActivation, update or resetState, and the
    providers, the promises and the connector's fields are as before. *)
Theorem activate_current_chain_noop (cfg : Config) (w : World) (t promise p : nat)
  (d : option Z) (pr : Provider) (s : Session) :
  tasks w !! t = Some (AC_awaitInitialize d promise) ->
  promises w !! promise = Some (Resolved p) ->
  providers w !! p = Some pr ->
  session pr = Some s ->
  d = None \/ d = Some (chainId pr) ->
  (forall w0,
     List.filter isActionsCall (log (activate cfg d w0))
       = List.filter isActionsCall (log w0) /\
     List.filter isRequestCall (log (activate cfg d w0))
       = List.filter isRequestCall (log w0)) /\
  (forall w0 w1 i,
     isConstructionInput i = true -> step cfg w0 i = Some w1 ->
     List.filter isActionsCall (log w1) = List.filter isActionsCall (log w0) /\
     List.filter isRequestCall (log w1) = List.filter isRequestCall (log w0)) /\
  exists w',
    step cfg w (Resume t) = Some w' /\
    tasks w' !! t = Some Fulfilled /\
    log w' = log w ++ [C_consoleLog p] /\
    List.filter isActionsCall (log w') = List.filter isActionsCall (log w) /\
    List.filter isRequestCall (log w') = List.filter isRequestCall (log w) /\
    providers w' = providers w /\
    promises w' = promises w /\
    provider w' = provider w /\
    eagerConnection w' = eagerConnection w.
Proof.
  intros Ht Hpromise Hp Hs Hd. split; [|split].
  - intros w0. destruct (activate_log cfg d w0) as [-> | ->]; [auto|].
    rewrite !List.filter_app; cbn. now rewrite !app_nil_r.
  - intros w0 w1 i Hi Hstep.
    destruct (construction_log cfg w0 w1 i Hi Hstep) as (c & Hc & [-> | ->]);
      [auto|].
    rewrite !List.filter_app; cbn.
    destruct Hc as [Ha Hr]. rewrite Ha, Hr. now rewrite !app_nil_r.
  - exists (continue t Fulfilled (call (C_consoleLog p) w)).
    split.
    { rewrite (resume_with_session cfg w t promise p d pr s) by assumption.
      f_equal. apply activate_session_return.
      destruct Hd as [-> | ->]; [now left | now right]. }
    split; [apply continue_lookup; cbn; eapply lookup_lt_Some; eassumption|].
    cbn. rewrite !List.filter_app; cbn. rewrite !app_nil_r. repeat split.
Qed.

Lemma activate_current_chain_noop_witness :
  exists w',
    step Examples.cfg_required (Examples.session_found Examples.cfg_required (Some 1))
         (Resume 0) = Some w' /\
    tasks w' !! 0%nat = Some Fulfilled /\
    log w' = log (Examples.session_found Examples.cfg_required (Some 1))
             ++ [C_consoleLog 0].
Proof.
  destruct (activate_current_chain_noop Examples.cfg_required
              (Examples.session_found Examples.cfg_required (Some 1))
              0 0 0 (Some 1)
              (fold_right (fun r pr => on (fst r) (snd r) pr)
                          Examples.connected_provider (rev attached))
              {| eip155_accounts := ["eip155:1:0xabc"] |}
              eq_refl eq_refl eq_refl eq_refl (or_intror eq_refl))
    as (_ & _ & w' & Hstep & Htask & Hlog & _).
  exists w'. auto.
Defined.

(** C10, the claim as stated fails. The default parameters of
    [initializeProvider], [getChainProps] and [isomorphicInitialize] replace
    [undefined] only, so a desired chain id of 0 is not treated as absent
    there. With the default chain id 5 configured, [activate()] on a fresh
    connector hands the chains to [init] reordered for chain 5, and
    [activate(0)] hands them in their configured order. *)
Lemma zero_skips_the_default :
  getChainProps Examples.cfg_default None
    = inr {| chains := Some [5; 1]; optionalChains := None |} /\
  getChainProps Examples.cfg_default (Some 0)
    = inr {| chains := Some [1; 5]; optionalChains := None |} /\
  getChainProps Examples.cfg_default (Some 0) <> getChainProps Examples.cfg_default None /\
  (exists w,
     run Examples.cfg_default initial [CallActivate None; ImportSettled 0 None] = Some w /\
     log w = [C_import; C_init {| chains := Some [5; 1]; optionalChains := None |} None]) /\
  (exists w,
     run Examples.cfg_default initial [CallActivate (Some 0); ImportSettled 0 None]
       = Some w /\
     log w = [C_import; C_init {| chains := Some [1; 5]; optionalChains := None |} None]).
Proof.
  split; [reflexivity|]. split; [reflexivity|]. split; [discriminate|].
  split; eexists; split; reflexivity.
Qed.

(** C10 (amended). A desired chain id of 0 counts as absent in the two
    truthiness guards of the public interface: [reorderChainsBasedOnId]
    returns the list unchanged for it, also when 0 is an element; and
    [activate(0)] on a provider that has a session is fulfilled without a
    chain-switch request, whatever the session's current chain id: it does
    what [activate()] does there. It does not count as absent for the
    default parameters: these replace [undefined] only, so for 0 the
    configured default chain id is not used. A construction started with 0
    carries 0, and [getChainProps(0)] returns the configured lists in their
    order, where [getChainProps()] returns them reordered for the default
    chain id. *)
Theorem zero_desired_chain_is_absent (cfg : Config) (w : World) (t promise p : nat)
  (pr : Provider) (s : Session) :
  tasks w !! t = Some (AC_awaitInitialize (Some 0) promise) ->
  promises w !! promise = Some (Resolved p) ->
  providers w !! p = Some pr ->
  session pr = Some s ->
  (forall L, reorderChainsBasedOnId L (Some 0) = L) /\
  (In 0 [1; 0] /\ reorderChainsBasedOnId (Some [1; 0]) (Some 0) = Some [1; 0]) /\
  activate_session cfg t p pr s (Some 0) w = activate_session cfg t p pr s None w /\
  (exists w',
     step cfg w (Resume t) = Some w' /\
     tasks w' !! t = Some Fulfilled /\
     log w' = log w ++ [C_consoleLog p] /\
     List.filter isRequestCall (log w') = List.filter isRequestCall (log w)) /\
  orDefault (Some 0) (defaultChainId cfg) = Some 0 /\
  orDefault None (defaultChainId cfg) = defaultChainId cfg /\
  getChainProps cfg (Some 0)
    = validate (options_chains cfg) (options_optionalChains cfg) /\
  getChainProps cfg None = getChainProps cfg (defaultChainId cfg) /\
  (forall w0,
     eagerConnection w0 = None ->
     promises (snd (isomorphicInitialize cfg (Some 0) w0))
       !! fst (isomorphicInitialize cfg (Some 0) w0)
     = Some (Pending (AwaitImport (Some 0))) /\
     promises (snd (isomorphicInitialize cfg None w0))
       !! fst (isomorphicInitialize cfg None w0)
     = Some (Pending (AwaitImport (defaultChainId cfg)))).
Proof.
  intros Ht Hpromise Hp Hs.
  split; [apply reorder_zero|].
  split; [split; [right; left; reflexivity | reflexivity]|].
  split; [reflexivity|].
  split.
  { exists (continue t Fulfilled (call (C_consoleLog p) w)).
    split.
    { rewrite (resume_with_session cfg w t promise p (Some 0) pr s) by assumption.
      reflexivity. }
    split; [apply continue_lookup; cbn; eapply lookup_lt_Some; eassumption|].
    cbn. rewrite List.filter_app; cbn. rewrite app_nil_r. auto. }
  split; [reflexivity|]. split; [reflexivity|].
  split.
  { unfold validate. rewrite !getChainProps_eq.
    cbn [options_chains options_optionalChains defaultChainId orDefault].
    rewrite !reorder_zero, !reorder_absent. reflexivity. }
  split.
  { rewrite !getChainProps_eq. now destruct (defaultChainId cfg). }
  intros w0 He. rewrite !(isomorphicInitialize_fresh cfg _ w0 He).
  cbn. rewrite !list_lookup_middle by reflexivity.
  split; [reflexivity|]. now destruct (defaultChainId cfg).
Qed.

(** [activate(0)] against a session whose current chain id is 1. *)
Lemma zero_desired_chain_is_absent_witness :
  exists w',
    step Examples.cfg_required (Examples.session_found Examples.cfg_required (Some 0))
         (Resume 0) = Some w' /\
    tasks w' !! 0%nat = Some Fulfilled /\
    log w' = log (Examples.session_found Examples.cfg_required (Some 0))
             ++ [C_consoleLog 0].
Proof.
  destruct (zero_desired_chain_is_absent Examples.cfg_required
              (Examples.session_found Examples.cfg_required (Some 0))
              0 0 0
              (fold_right (fun r pr => on (fst r) (snd r) pr)
                          Examples.connected_provider (rev attached))
              {| eip155_accounts := ["eip155:1:0xabc"] |}
              eq_refl eq_refl eq_refl eq_refl)
    as (_ & _ & _ & (w' & Hstep & Htask & Hlog & _) & _).
  exists w'. auto.
Defined.




(* ===================================================================== *)
(** * Listener teardown *)
(* ===================================================================== *)

(** The removals of [deactivate] undo the registrations of
    [handleProviderEvents] when both act on the same provider. *)
Lemma removeListener_undoes_on (pr : Provider) :
  removeListener "display_uri" L_URI
    (removeListener "accountsChanged" L_accountsChanged
      (removeListener "chainChanged" L_chainChanged
        (removeListener "disconnect" L_disconnect
          (on "display_uri" L_URI
            (on "accountsChanged" L_accountsChanged
              (on "chainChanged" L_chainChanged
                (on "disconnect" L_disconnect pr))))))) = pr.
Proof.
  destruct pr as [ls se ci ac]. unfold removeListener, on; cbn [listeners session chainId accounts].
  f_equal.
  repeat (rewrite ?rev_app_distr, ?rev_involutive; cbn).
  reflexivity.
Qed.

(** Had [provider] been assigned the provider that [handleProviderEvents]
    wired, [deactivate] would detach the four listeners and disconnect it. *)
Lemma deactivate_detaches_assigned_provider (w : World) (p : nat) (pr : Provider) :
  provider w = Some p ->
  providers w !! p
  = Some (on "display_uri" L_URI
            (on "accountsChanged" L_accountsChanged
              (on "chainChanged" L_chainChanged
                (on "disconnect" L_disconnect pr)))) ->
  providers (deactivate w) !! p = Some pr /\
  log (deactivate w) = log w ++ [C_disconnect p; A_resetState].
Proof.
  intros Hp Hpr. unfold deactivate. rewrite Hp. cbn. split.
  - rewrite list_lookup_alter_eq, Hpr. cbn [fmap option_fmap option_map].
    now rewrite removeListener_undoes_on.
  - now rewrite <- app_assoc.
Qed.

(** But [provider] is never assigned: after every run of the connector,
    [deactivate] touches no provider and calls [disconnect] on none. *)
Lemma deactivate_detaches_nothing (cfg : Config) (inputs : list Input) (w : World) :
  run cfg initial inputs = Some w ->
  providers (deactivate w) = providers w /\
  log (deactivate w) = log w ++ [A_resetState].
Proof.
  intros Hrun. rewrite (deactivate_without_provider w) by (eapply provider_never_set; eauto).
  split; reflexivity.
Qed.

(** C1, the code at a failing input. A connector for the chains 1 and 5:
    [activate()] constructs a provider, which [handleProviderEvents] wires,
    and enables it; then [deactivate()] runs. The provider still holds the
    four listeners, [disconnect] was not called on it, and a chain-changed
    event that it emits afterwards still reaches Actions. *)
Theorem deactivate_leaves_listeners :
  run Examples.cfg_required initial
    [CallActivate None; ImportSettled 0 None;
     InitSettled 0 (inr Examples.fresh_provider); Resume 0;
     EnableSettled 0 (inr Examples.connected_provider);
     CallDeactivate;
     ProviderEmits 0 (Ev_chainChanged "0x5")]
  = Some
      {| provider := None;
         eagerConnection := None;
         promises := [Resolved 0];
         providers :=
           [{| listeners := attached;
               session := Some {| eip155_accounts := ["eip155:1:0xabc"] |};
               chainId := 1;
               accounts := ["0xabc"] |}];
         tasks := [Fulfilled];
         log :=
           [C_import;
            C_init {| chains := Some [1; 5]; optionalChains := None |} None;
            A_startActivation; C_enable 0;
            A_update (Some (JS.Int 1)) (Some ["0xabc"]);
            A_resetState;
            A_update (Some (JS.Int 5)) None];
         deactivations := 1 |}.
Proof. reflexivity. Qed.

(* ===================================================================== *)
(** * Failure of the session-establishing step *)
(* ===================================================================== *)

(** In any state, the [catch] blocks run [deactivate], then, after the
    [await], [cancelActivation], and the call fails with the error caught. *)
Lemma connectEagerly_no_session (cfg : Config) (w : World) (t k promise p : nat)
  (pr : Provider) :
  tasks w !! t = Some (CE_awaitInitialize k promise) ->
  promises w !! promise = Some (Resolved p) ->
  providers w !! p = Some pr ->
  session pr = None ->
  step cfg w (Resume t)
  = Some (continue t (CE_awaitDeactivate k NoSessionError) (deactivate w)).
Proof.
  intros Ht Hpromise Hp Hs. cbn [step]. rewrite Ht, Hpromise.
  unfold connectEagerly_initialized. now rewrite Hp, Hs.
Qed.

Lemma activate_enable_rejected (cfg : Config) (w : World) (t k p : nat) (e : Error) :
  tasks w !! t = Some (AC_awaitEnable k p) ->
  step cfg w (EnableSettled t (inl e))
  = Some (continue t (AC_awaitDeactivate k e) (deactivate w)).
Proof. intros Ht. cbn [step]. now rewrite Ht. Qed.

Lemma rethrow_after_cancel (cfg : Config) (w : World) (t k : nat) (e : Error) :
  tasks w !! t = Some (CE_awaitDeactivate k e) \/
  tasks w !! t = Some (AC_awaitDeactivate k e) ->
  exists w',
    step cfg w (Resume t) = Some w' /\
    log w' = log w ++ [A_cancelActivation k] /\
    tasks w' !! t = Some (Failed e) /\
    providers w' = providers w.
Proof.
  intros Ht. exists (cancel_and_throw t k e w).
  split; [cbn [step]; destruct Ht as [-> | ->]; reflexivity|].
  split; [reflexivity|].
  split; [|reflexivity].
  apply continue_lookup. cbn. destruct Ht as [Ht | Ht]; eapply lookup_lt_Some; eassumption.
Qed.

(** C5, the code at two failing inputs. [connectEagerly()] finds no
    persisted session; and [provider.enable()] rejects inside [activate()].
    In both runs [deactivate] runs, [cancelActivation] is called after it, and
    the call fails with the error; the memoised handle is cleared and Actions
    is reset. But the listeners are not torn down: the provider that is
    dropped keeps all four, and is not disconnected. *)
Theorem failed_activation_keeps_listeners :
  run Examples.cfg_required initial
    [CallConnectEagerly; ImportSettled 0 None;
     InitSettled 0 (inr Examples.fresh_provider); Resume 0; Resume 0]
  = Some
      {| provider := None;
         eagerConnection := None;
         promises := [Resolved 0];
         providers :=
           [{| listeners := attached; session := None; chainId := 1; accounts := [] |}];
         tasks := [Failed NoSessionError];
         log :=
           [A_startActivation; C_import;
            C_init {| chains := Some [1; 5]; optionalChains := None |} None;
            A_resetState; A_cancelActivation 0];
         deactivations := 1 |} /\
  run Examples.cfg_required initial
    [CallActivate None; ImportSettled 0 None;
     InitSettled 0 (inr Examples.fresh_provider); Resume 0;
     EnableSettled 0 (inl (ProviderError 4001)); Resume 0]
  = Some
      {| provider := None;
         eagerConnection := None;
         promises := [Resolved 0];
         providers :=
           [{| listeners := attached; session := None; chainId := 1; accounts := [] |}];
         tasks := [Failed (ProviderError 4001)];
         log :=
           [C_import;
            C_init {| chains := Some [1; 5]; optionalChains := None |} None;
            A_startActivation; C_enable 0; A_resetState; A_cancelActivation 0];
         deactivations := 1 |}.
Proof. split; reflexivity. Qed.

(* ===================================================================== *)
(** * Accounts and the chains they are on *)
(* ===================================================================== *)

Section AccountPrefix.

Import JS.

(** A decimal digit string contains no colon and no sign. *)
Lemma stringOfDigits_chars (ds : list Z) (x : ascii) :
  inRadix 10 ds -> In x (list_ascii_of_string (stringOfDigits ds)) ->
  exists v, digitValue x = Some v.
Proof.
  unfold stringOfDigits. rewrite list_ascii_of_string_of_list_ascii.
  intros Hds Hin. apply in_map_iff in Hin as (v & <- & Hv).
  exists v. apply JSFacts.digitValue_digitChar.
  pose proof (proj1 (List.Forall_forall _ _) Hds v Hv) as Hr. cbv beta in Hr. lia.
Qed.

Lemma toStr_no_colon (d : Z) (x : ascii) :
  In x (list_ascii_of_string (toStr d)) -> x <> ":"%char.
Proof.
  unfold toStr, toString. intros Hin ->.
  assert (Hdigit : forall n, In ":"%char (list_ascii_of_string (stringOfDigits (digitsOf 10 n))) -> False).
  { intros n H. apply stringOfDigits_chars in H as (v & Hv);
      [vm_compute in Hv; discriminate | apply JSFacts.digitsOf_inRadix; lia]. }
  destruct (d <? 0); [|eauto].
  cbn [list_ascii_of_string] in Hin. destruct Hin as [Hin | Hin]; [discriminate | eauto].
Qed.

Lemma stringOfDigits_inj (ds ds' : list Z) :
  inRadix 10 ds -> inRadix 10 ds' ->
  stringOfDigits ds = stringOfDigits ds' -> ds = ds'.
Proof.
  intros H H' Heq.
  rewrite <- (JSFacts.radixDigits_stringOfDigits 10 ds) by (assumption || lia).
  rewrite <- (JSFacts.radixDigits_stringOfDigits 10 ds') by (assumption || lia).
  now rewrite Heq.
Qed.

Lemma digitsOf_inj (a b : Z) :
  0 <= a -> 0 <= b -> stringOfDigits (digitsOf 10 a) = stringOfDigits (digitsOf 10 b) ->
  a = b.
Proof.
  intros Ha Hb Heq.
  apply stringOfDigits_inj in Heq; try (apply JSFacts.digitsOf_inRadix; lia).
  rewrite <- (JSFacts.digitsOf_value 10 a), <- (JSFacts.digitsOf_value 10 b) by lia.
  now rewrite Heq.
Qed.

Lemma digits_not_signed (n : Z) (s : string) :
  stringOfDigits (digitsOf 10 n) <> String "-" s.
Proof.
  pose proof (JSFacts.digitsOf_nonempty 10 n) as Hne.
  pose proof (JSFacts.digitsOf_inRadix 10 n ltac:(lia)) as Hr.
  destruct (digitsOf 10 n) as [| v ds]; [congruence|].
  unfold stringOfDigits; cbn [List.map string_of_list_ascii]. intros [= Hc _].
  pose proof (Forall_inv Hr) as Hv. cbv beta in Hv.
  pose proof (JSFacts.digitValue_digitChar v ltac:(lia)) as Hd.
  rewrite Hc in Hd. vm_compute in Hd. discriminate.
Qed.

(** Different integers are written differently. *)
Lemma toStr_inj (a b : Z) : toStr a = toStr b -> a = b.
Proof.
  unfold toStr, toString.
  destruct (Z.ltb_spec a 0), (Z.ltb_spec b 0); intros Heq.
  - injection Heq as Heq. apply digitsOf_inj in Heq; lia.
  - symmetry in Heq. now apply digits_not_signed in Heq.
  - now apply digits_not_signed in Heq.
  - apply digitsOf_inj in Heq; lia.
Qed.

(** Two strings without the character [c], each followed by [c]: the one is
    a prefix of the other only if they are equal. *)
Lemma prefix_terminated (c : ascii) (a b rest : string) :
  (forall x, In x (list_ascii_of_string a) -> x <> c) ->
  (forall x, In x (list_ascii_of_string b) -> x <> c) ->
  String.prefix (a ++ String c "") (b ++ String c rest) = true -> a = b.
Proof.
  revert b. induction a as [| x a IH]; intros b Ha Hb.
  - destruct b as [| y b]; [reflexivity|].
    cbn. destruct (ascii_dec c y) as [-> | _]; [|discriminate].
    exfalso. apply (Hb y); [now left | reflexivity].
  - destruct b as [| y b]; cbn.
    + destruct (ascii_dec x c) as [-> | _]; [|discriminate].
      exfalso. apply (Ha c); [now left | reflexivity].
    + destruct (ascii_dec x y) as [-> | _]; [|discriminate].
      intros H. f_equal. apply IH; [| |exact H].
      * intros z Hz. apply Ha. now right.
      * intros z Hz. apply Hb. now right.
Qed.

Lemma prefix_app_same (a rest : string) : String.prefix a (a ++ rest) = true.
Proof.
  induction a as [| x a IH]; cbn; [now destruct rest|].
  destruct (ascii_dec x x); [exact IH | congruence].
Qed.

(** The test of lines 181-183 on an account of the form
    [eip155:<chain>:<address>]. *)
Lemma account_on_chain (c d : Z) (address : string) :
  startsWith ("eip155:" ++ toStr c ++ ":" ++ address) ("eip155:" ++ toStr d ++ ":") = true
  <-> c = d.
Proof.
  unfold startsWith. split.
  - cbn. repeat (match goal with
                 | |- context [ascii_dec ?x ?x] =>
                     destruct (ascii_dec x x); [|congruence]
                 end).
    intros H. symmetry. apply toStr_inj.
    eapply (prefix_terminated ":"%char); [apply toStr_no_colon | apply toStr_no_colon | exact H].
  - intros ->.
    replace ("eip155:" ++ toStr d ++ ":" ++ address)%string
      with (("eip155:" ++ toStr d ++ ":") ++ address)%string.
    + apply prefix_app_same.
    + cbn. do 7 f_equal.
      induction (toStr d) as [| x t IH]; cbn; [reflexivity | now rewrite IH].
Qed.

End AccountPrefix.

(** X1. For a session whose accounts have the form
    [eip155:<chain>:<address>], the chain written with all its decimal
    digits, and a desired chain id that is a safe integer (at most
    [Number.MAX_SAFE_INTEGER] in magnitude, so that the template literal of
    line 182 writes all its digits): the test of [activate] whether the
    wallet is connected to the desired chain holds exactly when one of the
    accounts is on that chain: an account on chain 10 does not count for
    chain 1, nor one on chain 1 for chain 10. *)
Theorem connected_iff_account_on_chain (accts : list (Z * string)) (d : Z) :
  - JS.MAX_SAFE_INTEGER <= d <= JS.MAX_SAFE_INTEGER ->
  isConnectedToDesiredChain
    {| eip155_accounts :=
         List.map (fun a => "eip155:" ++ JS.toStr (fst a) ++ ":" ++ snd a)%string accts |}
    d = true
  <-> exists address, In (d, address) accts.
Proof.
  intros _.
  unfold isConnectedToDesiredChain; cbn [eip155_accounts].
  rewrite existsb_exists. split.
  - intros (account & Hin & Hpre).
    apply in_map_iff in Hin as ([c address] & <- & Hin). cbn [fst snd] in Hpre.
    apply account_on_chain in Hpre. subst c. eauto.
  - intros (address & Hin).
    exists ("eip155:" ++ JS.toStr d ++ ":" ++ address)%string. split.
    + apply in_map_iff. exists (d, address). auto.
    + now apply account_on_chain.
Qed.

(** Accounts on chains 1 and 10: connected to chain 10, and not to chain
    100. *)
Lemma connected_iff_account_on_chain_witness :
  isConnectedToDesiredChain
    {| eip155_accounts := ["eip155:1:0xabc"; "eip155:10:0xdef"] |} 10 = true /\
  isConnectedToDesiredChain
    {| eip155_accounts := ["eip155:1:0xabc"; "eip155:10:0xdef"] |} 100 <> true.
Proof.
  assert (H10 : - JS.MAX_SAFE_INTEGER <= 10 <= JS.MAX_SAFE_INTEGER)
    by (vm_compute; split; discriminate).
  assert (H100 : - JS.MAX_SAFE_INTEGER <= 100 <= JS.MAX_SAFE_INTEGER)
    by (vm_compute; split; discriminate).
  split.
  - apply (proj2 (connected_iff_account_on_chain [(1, "0xabc"); (10, "0xdef")] 10 H10)).
    exists "0xdef". right; left; reflexivity.
  - intros H.
    apply (proj1 (connected_iff_account_on_chain [(1, "0xabc"); (10, "0xdef")] 100 H100))
      in H.
    destruct H as (address & [[= ? _] | [[= ? _] | []]]); discriminate.
Defined.

(* ===================================================================== *)
(** * Switching the chain of an existing session *)
(* ===================================================================== *)

Lemma activate_session_switch (cfg : Config) (w : World) (t p : nat) (d : Z)
  (pr : Provider) (s : Session) :
  d <> 0 -> d <> chainId pr -> isConnectedToDesiredChain s d = true ->
  activate_session cfg t p pr s (Some d) w
  = continue t (AC_awaitRequest p)
      (call (C_request_switchEthereumChain p ("0x" ++ JS.toString 16 d))
         (call (C_consoleLog p) w)).
Proof.
  intros Hd Hc Hconn. unfold activate_session, JS.truthy.
  destruct (Z.eqb_spec d 0); [contradiction|].
  destruct (Z.eqb_spec d (chainId pr)); [contradiction|].
  now rewrite Hconn.
Qed.

(** X2. When [activate(desiredChainId)] resumes on a provider with a
    session, for a desired chain id that is a safe integer (at most
    [Number.MAX_SAFE_INTEGER] in magnitude), is not 0, differs from the
    current chain id and has an account of the session on it: the connector
    sends one [wallet_switchEthereumChain] request whose [chainId] is 0x
    followed by the id in base 16, calls nothing on Actions, and changes
    neither a provider nor its own fields. The outcome of [activate] is the outcome of
    that request: fulfilled when it resolves, failed with the provider's
    error when it rejects, in both cases without a further call, without
    [deactivate], and with the memoised handle kept. *)
Theorem activate_requests_chain_switch (cfg : Config) (w : World) (t promise p : nat)
  (d : Z) (pr : Provider) (s : Session) :
  tasks w !! t = Some (AC_awaitInitialize (Some d) promise) ->
  promises w !! promise = Some (Resolved p) ->
  providers w !! p = Some pr ->
  session pr = Some s ->
  - JS.MAX_SAFE_INTEGER <= d <= JS.MAX_SAFE_INTEGER ->
  d <> 0 ->
  d <> chainId pr ->
  isConnectedToDesiredChain s d = true ->
  exists w1,
    step cfg w (Resume t) = Some w1 /\
    log w1 = log w ++ [C_consoleLog p;
                       C_request_switchEthereumChain p ("0x" ++ JS.toString 16 d)] /\
    tasks w1 !! t = Some (AC_awaitRequest p) /\
    providers w1 = providers w /\
    connector_unchanged w w1 /\
    forall r, exists w2,
      step cfg w1 (RequestSettled t r) = Some w2 /\
      tasks w2 !! t = Some (match r with None => Fulfilled | Some e => Failed e end) /\
      log w2 = log w1 /\
      providers w2 = providers w /\
      connector_unchanged w w2.
Proof.
  intros Ht Hpromise Hp Hs _ Hd Hc Hconn.
  assert (Hlt : (t < length (tasks w))%nat) by (eapply lookup_lt_Some; eassumption).
  exists (continue t (AC_awaitRequest p)
            (call (C_request_switchEthereumChain p ("0x" ++ JS.toString 16 d))
               (call (C_consoleLog p) w))).
  split.
  { rewrite (resume_with_session cfg w t promise p (Some d) pr s) by assumption.
    now rewrite activate_session_switch. }
  split; [cbn; now rewrite <- app_assoc|].
  split; [now apply continue_lookup|].
  split; [reflexivity|].
  split; [repeat split|].
  intros r. eexists. split.
  { cbn [step]. rewrite continue_lookup by assumption. reflexivity. }
  split.
  { apply continue_lookup. cbn. now rewrite length_insert. }
  repeat split.
Qed.

(** [activate(5)] against a session on chain 1 that has an account on
    chain 5. *)
Lemma activate_requests_chain_switch_witness :
  exists w1,
    step Examples.cfg_required (Examples.multichain_found Examples.cfg_required (Some 5))
         (Resume 0) = Some w1 /\
    log w1 = log (Examples.multichain_found Examples.cfg_required (Some 5))
             ++ [C_consoleLog 0; C_request_switchEthereumChain 0 "0x5"].
Proof.
  destruct (activate_requests_chain_switch Examples.cfg_required
              (Examples.multichain_found Examples.cfg_required (Some 5))
              0 0 0 5
              (fold_right (fun r pr => on (fst r) (snd r) pr)
                          Examples.multichain_provider (rev attached))
              {| eip155_accounts := ["eip155:1:0xabc"; "eip155:5:0xabc"] |}
              eq_refl eq_refl eq_refl eq_refl)
    as (w1 & Hstep & Hlog & _).
  - vm_compute. split; discriminate.
  - discriminate.
  - discriminate.
  - reflexivity.
  - exists w1. split; [exact Hstep | exact Hlog].
Defined.

Lemma toDigits_leading (R : Z) (fuel : nat) :
  2 <= R ->
  forall n, 0 < n < R ^ Z.of_nat fuel ->
    exists v rest, JS.toDigits R fuel n [] = v :: rest /\ 0 < v < R.
Proof.
  intros HR. induction fuel as [| fuel IH]; intros n Hn.
  - simpl in Hn. lia.
  - cbn [JS.toDigits].
    pose proof (Z.div_mod n R ltac:(lia)) as Hdm.
    pose proof (Z.mod_pos_bound n R ltac:(lia)) as Hmod.
    destruct (Z.eqb_spec (n / R) 0) as [H0 | Hne].
    + exists (n mod R), []. split; [reflexivity|]. rewrite H0 in Hdm. lia.
    + rewrite JSFacts.toDigits_app.
      assert (Hq : 0 < n / R) by (pose proof (Z.div_pos n R); lia).
      destruct (IH (n / R)) as (v & rest & Heq & Hv).
      * split; [exact Hq|]. apply Z.div_lt_upper_bound; [lia|].
        rewrite Nat2Z.inj_succ, Z.pow_succ_r in Hn by lia. lia.
      * rewrite Heq. exists v, (rest ++ [n mod R]). split; [reflexivity | exact Hv].
Qed.

(** X3. The [chainId] parameter that [activate] puts in the
    [wallet_switchEthereumChain] request for a positive chain id is a
    hexadecimal quantity: 0x, then at least one digit of 0-9a-f, the first
    of them not 0, and these digits denote the chain id. *)
Theorem switch_parameter_is_hex_quantity (d : Z) :
  0 < d ->
  exists v ds,
    ("0x" ++ JS.toString 16 d)%string = ("0x" ++ JS.stringOfDigits (v :: ds))%string /\
    0 < v < 16 /\
    JS.inRadix 16 ds /\
    JS.mathInt 16 (v :: ds) = d /\
    JS.radixDigits 16 (JS.toString 16 d) = v :: ds.
Proof.
  intros Hd. unfold JS.toString. destruct (Z.ltb_spec d 0); [lia|].
  destruct (toDigits_leading 16 (S (Z.to_nat (Z.log2 d))) ltac:(lia) d)
    as (v & ds & Heq & Hv).
  { split; [lia | apply JSFacts.fuel_suffices; lia]. }
  pose proof (JSFacts.digitsOf_inRadix 16 d ltac:(lia)) as Hr.
  pose proof (JSFacts.digitsOf_value 16 d ltac:(lia) ltac:(lia)) as Hval.
  unfold JS.digitsOf in *. rewrite Heq in *.
  exists v, ds. split; [reflexivity|]. split; [exact Hv|].
  split; [exact (Forall_inv_tail Hr)|]. split; [exact Hval|].
  apply JSFacts.radixDigits_stringOfDigits; [lia | exact Hr].
Qed.

Lemma switch_parameter_is_hex_quantity_witness :
  exists v ds,
    ("0x" ++ JS.toString 16 137)%string = ("0x" ++ JS.stringOfDigits (v :: ds))%string /\
    0 < v < 16 /\
    JS.inRadix 16 ds /\
    JS.mathInt 16 (v :: ds) = 137 /\
    JS.radixDigits 16 (JS.toString 16 137) = v :: ds.
Proof.
  apply (switch_parameter_is_hex_quantity 137). lia.
Defined.

(* ===================================================================== *)
(** * A construction that failed *)
(* ===================================================================== *)

Section FailedConstruction.

Variable cfg : Config.

Lemma lookup_last {A} (l : list A) (x : A) : (l ++ [x]) !! length l = Some x.
Proof. now apply list_lookup_middle. Qed.

Lemma insert_last {A} (l : list A) (x y : A) : <[length l := y]> (l ++ [x]) = l ++ [y].
Proof.
  rewrite insert_app_r_alt by lia. now rewrite Nat.sub_diag.
Qed.

End FailedConstruction.

(** X4. A failed construction is sticky for [activate]. While the memoised
    handle is a rejected promise, [activate] fails with the error of that
    promise and does nothing else: no call on Actions or a provider, no new
    construction, no [deactivate]; the rejected handle stays memoised, so
    the next [activate] fails in the same way. *)
Theorem failed_construction_is_sticky (cfg : Config) (w : World) (promise : nat)
  (e : Error) (d : option Z) :
  eagerConnection w = Some promise ->
  promises w !! promise = Some (Rejected e) ->
  exists w',
    run cfg w [CallActivate d; Resume (length (tasks w))] = Some w' /\
    tasks w' = tasks w ++ [Failed e] /\
    log w' = log w /\
    promises w' = promises w /\
    providers w' = providers w /\
    eagerConnection w' = Some promise /\
    deactivations w' = deactivations w.
Proof.
  intros Hmemo Hrej.
  exists (set_tasks (tasks w ++ [Failed e]) w). split; [|repeat split; assumption].
  cbn [run step]. rewrite (activate_memoised cfg d w promise Hmemo).
  cbn [tasks set_tasks promises]. rewrite lookup_last, Hrej.
  cbn [activate_initialized]. unfold continue; cbn. now rewrite insert_last.
Qed.

(** A connector without chains: the construction has failed with the
    configuration error, and [activate] fails with it again. *)
Lemma failed_construction_is_sticky_witness :
  exists w',
    run Examples.cfg_no_chains
      (Examples.after Examples.cfg_no_chains
         [CallActivate None; ImportSettled 0 None;
          BestUrlMapSettled 0 (inr [(1, "https://b.example")]); Resume 0])
      [CallActivate None; Resume 1] = Some w' /\
    tasks w' = [Failed NoChainsError; Failed NoChainsError].
Proof.
  destruct (failed_construction_is_sticky Examples.cfg_no_chains
              (Examples.after Examples.cfg_no_chains
                 [CallActivate None; ImportSettled 0 None;
                  BestUrlMapSettled 0 (inr [(1, "https://b.example")]); Resume 0])
              0 NoChainsError None eq_refl eq_refl)
    as (w' & Hrun & Htasks & _).
  exists w'. split; [exact Hrun | exact Htasks].
Defined.

(** X5. [connectEagerly] clears a failed construction. While the memoised
    handle is a rejected promise, [connectEagerly] starts an activation,
    runs [deactivate], cancels that activation and fails with the error of
    the promise; the handle is no longer memoised afterwards, so the next
    caller starts a new construction. *)
Theorem connectEagerly_clears_failed_construction (cfg : Config) (w : World)
  (promise : nat) (e : Error) :
  provider w = None ->
  eagerConnection w = Some promise ->
  promises w !! promise = Some (Rejected e) ->
  exists w',
    run cfg w [CallConnectEagerly; Resume (length (tasks w)); Resume (length (tasks w))]
    = Some w' /\
    tasks w' = tasks w ++ [Failed e] /\
    log w' = log w ++ [A_startActivation; A_resetState;
                       A_cancelActivation
                         (length (List.filter isStartActivation (log w)))] /\
    promises w' = promises w /\
    providers w' = providers w /\
    eagerConnection w' = None /\
    deactivations w' = S (deactivations w) /\
    forall d, fst (isomorphicInitialize cfg d w') = length (promises w) /\
              length (promises (snd (isomorphicInitialize cfg d w')))
              = S (length (promises w)).
Proof.
  intros Hp Hmemo Hrej.
  destruct w as [pv ec ps pvs ts lg dn]. cbn in Hp, Hmemo, Hrej. subst pv ec.
  eexists. split.
  { cbn [run step]. unfold connectEagerly, startActivation, isomorphicInitialize.
    cbn. rewrite lookup_last. cbn. rewrite Hrej.
    unfold connectEagerly_initialized, catch_deactivate, deactivate, continue.
    cbn. rewrite insert_last, lookup_last.
    unfold cancel_and_throw, continue. cbn. rewrite insert_last.
    reflexivity. }
  cbn. rewrite <- !app_assoc. cbn [app].
  repeat split. now rewrite length_app, Nat.add_comm.
Qed.

Lemma connectEagerly_clears_failed_construction_witness :
  exists w',
    run Examples.cfg_no_chains
      (Examples.after Examples.cfg_no_chains
         [CallActivate None; ImportSettled 0 None;
          BestUrlMapSettled 0 (inr [(1, "https://b.example")]); Resume 0])
      [CallConnectEagerly; Resume 1; Resume 1] = Some w' /\
    tasks w' = [Failed NoChainsError; Failed NoChainsError] /\
    eagerConnection w' = None.
Proof.
  destruct (connectEagerly_clears_failed_construction Examples.cfg_no_chains
              (Examples.after Examples.cfg_no_chains
                 [CallActivate None; ImportSettled 0 None;
                  BestUrlMapSettled 0 (inr [(1, "https://b.example")]); Resume 0])
              0 NoChainsError eq_refl eq_refl eq_refl)
    as (w' & Hrun & Htasks & _ & _ & _ & Hmemo & _).
  exists w'. auto.
Defined.

(* ===================================================================== *)
(** * Whole runs of the lifecycle *)
(* ===================================================================== *)

Lemma orDefault_idem {A} (x dflt : option A) :
  orDefault (orDefault x dflt) dflt = orDefault x dflt.
Proof. now destruct x, dflt. Qed.

Lemma getChainProps_orDefault (cfg : Config) (d : option Z) :
  getChainProps cfg (orDefault d (defaultChainId cfg)) = getChainProps cfg d.
Proof. unfold getChainProps. now rewrite orDefault_idem. Qed.

Lemma run_cons (cfg : Config) (w w1 : World) (i : Input) (rest : list Input) :
  step cfg w i = Some w1 -> run cfg w (i :: rest) = run cfg w1 rest.
Proof. intros H. cbn [run]. now rewrite H. Qed.

(** Brings a state that is written with the update functions into the form
    of a record. *)
Ltac world_record :=
  unfold continue, settle, onProvider, call, set_tasks, set_promises, set_providers,
    set_log, set_eagerConnection, set_provider, count_deactivation;
  cbn [provider eagerConnection promises providers tasks log deactivations].

Lemma getChainProps_default (cfg : Config) :
  getChainProps cfg (defaultChainId cfg) = getChainProps cfg None.
Proof. unfold getChainProps. now destruct (defaultChainId cfg). Qed.

(** ** The construction and the calls made meanwhile *)

Section ConstructionFrame.

Variable cfg : Config.

Lemma run_app (inputs rest : list Input) :
  forall w,
    run cfg w (inputs ++ rest)
    = match run cfg w inputs with
      | Some w1 => run cfg w1 rest
      | None => None
      end.
Proof.
  induction inputs as [| i inputs IH]; intros w; cbn [app run]; [reflexivity|].
  destruct (step cfg w i); [apply IH | reflexivity].
Qed.

(** A step of the construction reads the promises and the providers only,
    and changes nothing but these and the calls made: it does the same in a
    state [v] that differs in what is suspended, in the memoised handle or
    in the earlier calls. *)
Lemma construction_step_frame (w w' v : World) (i : Input) :
  isConstructionInput i = true ->
  step cfg w i = Some w' ->
  promises v = promises w ->
  providers v = providers w ->
  exists cs,
    log w' = log w ++ cs /\
    List.filter isActionsCall cs = [] /\
    step cfg v i
    = Some (set_log (log v ++ cs)
              (set_promises (promises w') (set_providers (providers w') v))) /\
    length (promises w') = length (promises w) /\
    tasks w' = tasks w /\
    eagerConnection w' = eagerConnection w /\
    provider w' = provider w /\
    deactivations w' = deactivations w.
Proof.
  intros Hi Hstep Hp Hpv.
  destruct w as [wp we wps wpv wt wl wd], v as [vp ve vps vpv vt vl vd].
  cbn [promises providers] in Hp, Hpv. subst vps vpv.
  destruct i as [| | | promise r | promise r | promise r | | | | |];
    try discriminate; clear Hi; cbn [step promises] in *;
    (destruct (wps !! promise) as [[[d0 | d0 |] | |]|]; try discriminate).
  - destruct r as [e|]; injection Hstep as <-.
    + exists []. cbn. rewrite !app_nil_r, length_insert. repeat split.
    + unfold initializeProvider_imported, initializeProvider_init.
      destruct (this_rpcMap cfg) as [m|]; [|destruct (getChainProps cfg d0)].
      * eexists [_]. cbn. rewrite length_insert. repeat split.
      * exists []. cbn. rewrite !app_nil_r, length_insert. repeat split.
      * eexists [_]. cbn. rewrite length_insert. repeat split.
  - destruct r as [e | m]; injection Hstep as <-.
    + exists []. cbn. rewrite !app_nil_r, length_insert. repeat split.
    + unfold initializeProvider_init. destruct (getChainProps cfg d0).
      * exists []. cbn. rewrite !app_nil_r, length_insert. repeat split.
      * eexists [_]. cbn. rewrite length_insert. repeat split.
  - destruct r as [e | pr]; injection Hstep as <-.
    + exists []. cbn. rewrite !app_nil_r, length_insert. repeat split.
    + exists []. cbn. rewrite !app_nil_r, length_insert. repeat split.
Qed.

Lemma construction_run_frame (inputs : list Input) :
  forall w w' v,
    forallb isConstructionInput inputs = true ->
    run cfg w inputs = Some w' ->
    promises v = promises w ->
    providers v = providers w ->
    exists cs,
      log w' = log w ++ cs /\
      List.filter isActionsCall cs = [] /\
      run cfg v inputs
      = Some (set_log (log v ++ cs)
                (set_promises (promises w') (set_providers (providers w') v))) /\
      length (promises w') = length (promises w) /\
      tasks w' = tasks w /\
      eagerConnection w' = eagerConnection w /\
      provider w' = provider w /\
      deactivations w' = deactivations w.
Proof.
  induction inputs as [| i inputs IH]; intros w w' v Hall Hrun Hp Hpv.
  - injection Hrun as <-. exists []. cbn [run]. rewrite !app_nil_r.
    destruct v; cbn in *; subst. repeat split.
  - cbn [forallb] in Hall. apply andb_prop in Hall as [Hi Hall].
    cbn [run] in Hrun. destruct (step cfg w i) as [w1|] eqn:Hstep; [|discriminate].
    destruct (construction_step_frame w w1 v i Hi Hstep Hp Hpv)
      as (cs1 & Hl1 & Hq1 & Hv1 & Hn1 & Ht1 & He1 & Hr1 & Hd1).
    destruct (IH w1 w'
                (set_log (log v ++ cs1)
                   (set_promises (promises w1) (set_providers (providers w1) v)))
                Hall Hrun eq_refl eq_refl)
      as (cs2 & Hl2 & Hq2 & Hv2 & Hn2 & Ht2 & He2 & Hr2 & Hd2).
    exists (cs1 ++ cs2). cbn [run]. rewrite Hv1, Hv2.
    rewrite Hl2, Hl1, List.filter_app, Hq1, Hq2, <- app_assoc.
    split; [reflexivity|]. split; [reflexivity|].
    split; [destruct v; cbn; now rewrite <- app_assoc|].
    repeat split; congruence.
Qed.

Lemma lookup_insert_cases {A} (l : list A) (i j : nat) (x y : A) :
  <[i := x]> l !! j = Some y -> y = x \/ l !! j = Some y.
Proof.
  intros H. destruct (decide (i = j)) as [-> | Hne].
  - left. pose proof (lookup_lt_Some _ _ _ H) as Hlt. rewrite length_insert in Hlt.
    rewrite list_lookup_insert_eq in H by exact Hlt. congruence.
  - right. now rewrite list_lookup_insert_ne in H.
Qed.

(** A construction keeps the desired chain id with which it was started. *)
Lemma construction_step_carries (d : option Z) (w w' : World) (i : Input) :
  isConstructionInput i = true ->
  step cfg w i = Some w' ->
  carries cfg d w -> carries cfg d w'.
Proof.
  intros Hi Hstep [Hpend Hinit].
  destruct i as [| | | promise r | promise r | promise r | | | | |];
    try discriminate; clear Hi; cbn [step] in Hstep;
    (destruct (promises w !! promise) as [[[d0 | d0 |] | |]|] eqn:Hp; try discriminate).
  - assert (Hd0 : getChainProps cfg d0 = getChainProps cfg d) by (eapply Hpend; eauto).
    destruct r as [e|]; injection Hstep as <-.
    + split; [|exact Hinit]. intros q d1 [H | H]; cbn in H;
        apply lookup_insert_cases in H as [H | H]; try discriminate; eauto.
    + unfold initializeProvider_imported, initializeProvider_init.
      destruct (this_rpcMap cfg) as [m|]; [|destruct (getChainProps cfg d0) eqn:Hg].
      * split.
        -- intros q d1 [H | H]; cbn in H;
             apply lookup_insert_cases in H as [H | H]; try discriminate; eauto.
           injection H as ->. exact Hd0.
        -- intros props m0 H. cbn in H. apply in_app_or in H as [H | [H | []]];
             [eauto | discriminate].
      * split; [|exact Hinit]. intros q d1 [H | H]; cbn in H;
          apply lookup_insert_cases in H as [H | H]; try discriminate; eauto.
      * split.
        -- intros q d1 [H | H]; cbn in H;
             apply lookup_insert_cases in H as [H | H]; try discriminate; eauto.
        -- intros props m0 H. cbn in H. apply in_app_or in H as [H | [H | []]];
             [eauto|]. injection H as <- _. congruence.
  - assert (Hd0 : getChainProps cfg d0 = getChainProps cfg d) by (eapply Hpend; eauto).
    destruct r as [e | m]; injection Hstep as <-.
    + split; [|exact Hinit]. intros q d1 [H | H]; cbn in H;
        apply lookup_insert_cases in H as [H | H]; try discriminate; eauto.
    + unfold initializeProvider_init. destruct (getChainProps cfg d0) eqn:Hg.
      * split; [|exact Hinit]. intros q d1 [H | H]; cbn in H;
          apply lookup_insert_cases in H as [H | H]; try discriminate; eauto.
      * split.
        -- intros q d1 [H | H]; cbn in H;
             apply lookup_insert_cases in H as [H | H]; try discriminate; eauto.
        -- intros props m0 H. cbn in H. apply in_app_or in H as [H | [H | []]];
             [eauto|]. injection H as <- _. congruence.
  - destruct r as [e | pr]; injection Hstep as <-.
    + split; [|exact Hinit]. intros q d1 [H | H]; cbn in H;
        apply lookup_insert_cases in H as [H | H]; try discriminate; eauto.
    + split; [|exact Hinit]. intros q d1 [H | H]; cbn in H;
        apply lookup_insert_cases in H as [H | H]; try discriminate; eauto.
Qed.

Lemma construction_run_carries (d : option Z) (inputs : list Input) :
  forall w w',
    forallb isConstructionInput inputs = true ->
    run cfg w inputs = Some w' ->
    carries cfg d w -> carries cfg d w'.
Proof.
  induction inputs as [| i inputs IH]; intros w w' Hall Hrun Hc.
  - now injection Hrun as <-.
  - cbn [forallb] in Hall. apply andb_prop in Hall as [Hi Hall].
    cbn [run] in Hrun. destruct (step cfg w i) as [w1|] eqn:Hstep; [|discriminate].
    eapply IH; [exact Hall | exact Hrun |].
    eapply construction_step_carries; eassumption.
Qed.

(** The state in which the first caller leaves a fresh connector. *)
Lemma first_call (first : Input) (d1 : option Z) :
  first = CallActivate d1 \/ (first = CallConnectEagerly /\ d1 = None) ->
  exists w0,
    step cfg initial first = Some w0 /\
    eagerConnection w0 = Some 0%nat /\
    length (promises w0) = 1%nat /\
    provider w0 = None /\
    carries cfg d1 w0 /\
    (first = CallConnectEagerly ->
     tasks w0 = [CE_awaitInitialize 0 0] /\ log w0 = [A_startActivation; C_import]).
Proof.
  intros [-> | [-> ->]]; eexists; (split; [reflexivity|]);
    (split; [reflexivity|]); (split; [reflexivity|]); (split; [reflexivity|]).
  - split; [|discriminate]. split.
    + intros [| q] d0 [H | H]; cbn in H; try discriminate.
      injection H as <-. unfold getChainProps.
      now destruct d1, (defaultChainId cfg).
    + intros props m [H | []]. discriminate.
  - split; [|intros _; split; reflexivity]. split.
    + intros [| q] d0 [H | H]; cbn in H; try discriminate.
      injection H as <-. unfold getChainProps.
      now destruct (defaultChainId cfg).
    + intros props m [H | [H | []]]; discriminate.
Qed.

End ConstructionFrame.

(** X6. The first caller decides the order of the chains. When [activate]
    is called a second time, or after [connectEagerly], at any moment of the
    construction (before the import has settled, during the endpoint
    selection, while [init] is awaited, or when it has settled), with or
    without an endpoint map configured: no second construction is started,
    and the second caller's desired chain id has no part in the one under
    way. The construction makes the calls and reaches the state that it
    makes and reaches without the second call, which only adds a caller that
    waits for the same promise. Each call of [init] is handed the chain
    lists of [getChainProps] for the first caller's desired chain id, and
    for the default chain id when the first caller is [connectEagerly]. *)
Theorem first_caller_decides_chain_order (cfg : Config) (first : Input)
  (d1 d2 : option Z) (pre post : list Input) (w : World) :
  first = CallActivate d1 \/ (first = CallConnectEagerly /\ d1 = None) ->
  forallb isConstructionInput (pre ++ post) = true ->
  run cfg initial (first :: pre ++ post) = Some w ->
  exists w2,
    run cfg initial (first :: pre ++ CallActivate d2 :: post) = Some w2 /\
    log w2 = log w /\
    promises w2 = promises w /\
    providers w2 = providers w /\
    tasks w2 = tasks w ++ [AC_awaitInitialize d2 0] /\
    length (promises w2) = 1%nat /\
    eagerConnection w2 = Some 0%nat /\
    forall props m, In (C_init props m) (log w2) -> getChainProps cfg d1 = inr props.
Proof.
  intros Hfirst Hall Hrun.
  destruct (first_call cfg first d1 Hfirst) as (w0 & Hstep0 & He0 & Hn0 & _ & Hc0 & _).
  cbn [run] in Hrun |- *. rewrite Hstep0 in Hrun |- *.
  pose proof (construction_run_carries cfg d1 _ _ _ Hall Hrun Hc0) as [_ Hinit].
  rewrite forallb_app in Hall. apply andb_prop in Hall as [Hpre Hpost].
  rewrite run_app in Hrun |- *.
  destruct (run cfg w0 pre) as [wp|] eqn:Hrunpre; [|discriminate].
  destruct (construction_run_frame cfg pre w0 wp w0 Hpre Hrunpre eq_refl eq_refl)
    as (cs1 & Hl1 & _ & _ & Hn1 & Ht1 & He1 & _).
  cbn [run step].
  rewrite (activate_memoised cfg d2 wp 0) by congruence.
  destruct (construction_run_frame cfg post wp w
              (set_tasks (tasks wp ++ [AC_awaitInitialize d2 0]) wp)
              Hpost Hrun eq_refl eq_refl)
    as (cs2 & Hl2 & _ & Hv2 & Hn2 & Ht2 & He2 & _).
  rewrite Hv2. eexists. split; [reflexivity|].
  cbn. rewrite <- Hl2, Ht2. repeat split; try congruence.
  exact Hinit.
Qed.

(** [activate(5)] first, and [activate(1)] while the endpoint selection is
    under way: chain 5 goes first. *)
Lemma first_caller_decides_chain_order_witness :
  exists w2,
    run Examples.cfg_rpc initial
      [CallActivate (Some 5); ImportSettled 0 None; CallActivate (Some 1);
       BestUrlMapSettled 0 (inr [(1, "https://b.example")])] = Some w2 /\
    log w2 = [C_import;
              C_getBestUrlMap [(1, ["https://a.example"; "https://b.example"])] 5000;
              C_init {| chains := Some [5; 1]; optionalChains := None |}
                     (Some [(1, "https://b.example")])] /\
    tasks w2 = [AC_awaitInitialize (Some 5) 0; AC_awaitInitialize (Some 1) 0].
Proof.
  assert (Hrun : run Examples.cfg_rpc initial
                   (CallActivate (Some 5)
                    :: [ImportSettled 0 None]
                       ++ [BestUrlMapSettled 0 (inr [(1, "https://b.example")])])
                 = Some (Examples.after Examples.cfg_rpc
                           [CallActivate (Some 5); ImportSettled 0 None;
                            BestUrlMapSettled 0 (inr [(1, "https://b.example")])]))
    by (vm_compute; reflexivity).
  destruct (first_caller_decides_chain_order Examples.cfg_rpc
              (CallActivate (Some 5)) (Some 5) (Some 1)
              [ImportSettled 0 None]
              [BestUrlMapSettled 0 (inr [(1, "https://b.example")])]
              _ (or_introl eq_refl) eq_refl Hrun)
    as (w2 & Hrun2 & Hlog & _ & _ & Htasks & _).
  exists w2. split; [exact Hrun2|]. split.
  - rewrite Hlog. vm_compute. reflexivity.
  - rewrite Htasks. vm_compute. reflexivity.
Defined.

(** X7. [deactivate] does not cancel an eager connection that is under
    way. When [deactivate] runs after [connectEagerly] was called, at any
    moment of the construction (before the import has settled, during the
    endpoint selection, while [init] is awaited, or when it has settled),
    with or without an endpoint map configured, and the provider then turns
    out to have a session, [connectEagerly] still reports the accounts and
    the chain id to Actions, after the resetState() of [deactivate], and is
    fulfilled. The construction completes as it does without the call of
    [deactivate]. The provider that was reported is not memoised: the next
    caller of [isomorphicInitialize] starts a second construction. *)
Theorem deactivate_does_not_cancel_eager_connection (cfg : Config)
  (pre post : list Input) (w : World) (p : nat) (pr : Provider) (s : Session) :
  forallb isConstructionInput (pre ++ post) = true ->
  run cfg initial (CallConnectEagerly :: pre ++ post) = Some w ->
  promises w !! 0%nat = Some (Resolved p) ->
  providers w !! p = Some pr ->
  session pr = Some s ->
  exists w2,
    run cfg initial (CallConnectEagerly :: pre ++ CallDeactivate :: post ++ [Resume 0])
    = Some w2 /\
    tasks w2 = [Fulfilled] /\
    List.filter isActionsCall (log w2)
    = [A_startActivation; A_resetState;
       A_update (Some (JS.Int (chainId pr))) (Some (accounts pr))] /\
    (exists before after,
       log w = before ++ after /\
       log w2 = before ++ [A_resetState] ++ after
                ++ [A_update (Some (JS.Int (chainId pr))) (Some (accounts pr))]) /\
    promises w2 = promises w /\
    providers w2 = providers w /\
    eagerConnection w2 = None /\
    forall d, fst (isomorphicInitialize cfg d w2) = 1%nat /\
              length (promises (snd (isomorphicInitialize cfg d w2))) = 2%nat.
Proof.
  intros Hall Hrun Hpromise Hp Hs.
  destruct (first_call cfg CallConnectEagerly None (or_intror (conj eq_refl eq_refl)))
    as (w0 & Hstep0 & He0 & Hn0 & Hprov0 & _ & Hshape).
  destruct (Hshape eq_refl) as [Ht0 Hl0].
  cbn [run] in Hrun |- *. rewrite Hstep0 in Hrun |- *.
  rewrite forallb_app in Hall. apply andb_prop in Hall as [Hpre Hpost].
  rewrite run_app in Hrun |- *.
  destruct (run cfg w0 pre) as [wp|] eqn:Hrunpre; [|discriminate].
  destruct (construction_run_frame cfg pre w0 wp w0 Hpre Hrunpre eq_refl eq_refl)
    as (cs1 & Hl1 & Hq1 & _ & Hn1 & Ht1 & He1 & Hprov1 & _).
  cbn [run step]. rewrite run_app.
  assert (Hdeact : deactivate wp
                   = count_deactivation
                       (call A_resetState
                          (set_eagerConnection None (set_provider None wp)))).
  { unfold deactivate. rewrite Hprov1, Hprov0. reflexivity. }
  rewrite Hdeact.
  destruct (construction_run_frame cfg post wp w
              (count_deactivation
                 (call A_resetState (set_eagerConnection None (set_provider None wp))))
              Hpost Hrun eq_refl eq_refl)
    as (cs2 & Hl2 & Hq2 & Hv2 & Hn2 & Ht2 & _).
  rewrite Hv2. cbn [run step tasks set_log set_promises set_providers count_deactivation
                      call set_eagerConnection set_provider promises].
  rewrite Ht1, Ht0. cbn [lookup list_lookup]. rewrite Hpromise.
  unfold connectEagerly_initialized.
  cbn [providers set_log set_promises set_providers count_deactivation call
         set_eagerConnection set_provider].
  rewrite Hp, Hs. eexists. split; [reflexivity|].
  cbn. rewrite Ht1, Ht0, Hl1, Hl0. cbn.
  rewrite !List.filter_app, Hq1, Hq2. cbn.
  split; [reflexivity|]. split; [reflexivity|].
  split.
  { exists ([A_startActivation; C_import] ++ cs1), cs2.
    rewrite Hl2, Hl1, Hl0. cbn. rewrite <- !app_assoc. cbn. split; reflexivity. }
  split; [reflexivity|]. split; [reflexivity|]. split; [reflexivity|].
  intros d. unfold isomorphicInitialize, initializeProvider. cbn.
  rewrite length_app. cbn. lia.
Qed.

(** [deactivate] while [init] is awaited. *)
Lemma deactivate_does_not_cancel_eager_connection_witness :
  exists w2,
    run Examples.cfg_required initial
      [CallConnectEagerly; ImportSettled 0 None; CallDeactivate;
       InitSettled 0 (inr Examples.connected_provider); Resume 0] = Some w2 /\
    tasks w2 = [Fulfilled] /\
    List.filter isActionsCall (log w2)
    = [A_startActivation; A_resetState; A_update (Some (JS.Int 1)) (Some ["0xabc"])].
Proof.
  assert (Hrun : run Examples.cfg_required initial
                   (CallConnectEagerly
                    :: [ImportSettled 0 None]
                       ++ [InitSettled 0 (inr Examples.connected_provider)])
                 = Some (Examples.after Examples.cfg_required
                           [CallConnectEagerly; ImportSettled 0 None;
                            InitSettled 0 (inr Examples.connected_provider)]))
    by (vm_compute; reflexivity).
  destruct (deactivate_does_not_cancel_eager_connection Examples.cfg_required
              [ImportSettled 0 None]
              [InitSettled 0 (inr Examples.connected_provider)]
              _ 0
              {| listeners := attached;
                 session := Some {| eip155_accounts := ["eip155:1:0xabc"] |};
                 chainId := 1; accounts := ["0xabc"] |}
              {| eip155_accounts := ["eip155:1:0xabc"] |}
              eq_refl Hrun eq_refl eq_refl eq_refl)
    as (w2 & Hrun2 & Htasks & Hlog & _).
  exists w2. split; [exact Hrun2|]. split; [exact Htasks | exact Hlog].
Defined.

(** X8. A first activation and a second one on the chain it established,
    with no endpoint map configured.
    [activate(d)] on a fresh connector whose provider has no session starts
    an activation before it calls [enable], and reports the chain id and the
    accounts to Actions once [enable] has resolved; a following
    [activate(chainId)] for the chain then current is fulfilled on the same
    provider: one construction, one [init], one [enable], one update, no
    request. *)
Theorem activate_then_activate_same_chain (cfg : Config) (d : option Z)
  (pr established : Provider) (s : Session) (props : ChainsProps) :
  this_rpcMap cfg = None ->
  getChainProps cfg d = inr props ->
  session pr = None ->
  session established = Some s ->
  exists w,
    run cfg initial
      [CallActivate d; ImportSettled 0 None; InitSettled 0 (inr pr); Resume 0;
       EnableSettled 0 (inr established);
       CallActivate (Some (chainId established)); Resume 1] = Some w /\
    log w = [C_import; C_init props None; A_startActivation; C_enable 0;
             A_update (Some (JS.Int (chainId established)))
                      (Some (accounts established));
             C_consoleLog 0] /\
    tasks w = [Fulfilled; Fulfilled] /\
    promises w = [Resolved 0] /\
    length (providers w) = 1%nat /\
    eagerConnection w = Some 0%nat.
Proof.
  intros Hrpc Hprops Hpr Hest.
  eexists. split.
  - erewrite run_cons.
    2:{ cbn [step]. unfold activate, isomorphicInitialize, initializeProvider, initial.
        world_record. cbn. reflexivity. }
    erewrite run_cons.
    2:{ cbn [step promises]. cbn.
        unfold initializeProvider_imported, initializeProvider_init.
        rewrite Hrpc, ?getChainProps_orDefault, ?getChainProps_default, Hprops.
        world_record. cbn. reflexivity. }
    erewrite run_cons.
    2:{ cbn [step promises]. cbn.
        unfold initializeProvider_created, handleProviderEvents.
        world_record. cbn. reflexivity. }
    erewrite run_cons.
    2:{ cbn [step tasks promises]. cbn. unfold activate_initialized.
        cbn. rewrite Hpr. unfold startActivation. world_record. cbn. reflexivity. }
    erewrite run_cons.
    2:{ cbn [step tasks]. cbn. unfold activate_enabled. world_record. cbn.
        reflexivity. }
    erewrite run_cons.
    2:{ cbn [step]. unfold activate, isomorphicInitialize. world_record. cbn.
        reflexivity. }
    erewrite run_cons.
    2:{ cbn [step tasks promises]. cbn. unfold activate_initialized.
        cbn. rewrite Hest. unfold activate_session. cbn [chainId].
        rewrite Z.eqb_refl, orb_true_r. world_record. cbn. reflexivity. }
    reflexivity.
  - cbn. repeat split.
Qed.

Lemma activate_then_activate_same_chain_witness :
  exists w,
    run Examples.cfg_required initial
      [CallActivate None; ImportSettled 0 None;
       InitSettled 0 (inr Examples.fresh_provider); Resume 0;
       EnableSettled 0 (inr Examples.connected_provider);
       CallActivate (Some 1); Resume 1] = Some w /\
    tasks w = [Fulfilled; Fulfilled].
Proof.
  destruct (activate_then_activate_same_chain Examples.cfg_required None
              Examples.fresh_provider Examples.connected_provider
              {| eip155_accounts := ["eip155:1:0xabc"] |}
              {| chains := Some [1; 5]; optionalChains := None |}
              eq_refl eq_refl eq_refl eq_refl)
    as (w & Hrun & _ & Htasks & _).
  exists w. split; [exact Hrun | exact Htasks].
Defined.

(* ===================================================================== *)
(** * The listeners of every provider *)
(* ===================================================================== *)

Section Listeners.

Variable cfg : Config.

Lemma isomorphicInitialize_providers (d : option Z) (w : World) :
  providers (snd (isomorphicInitialize cfg d w)) = providers w.
Proof. unfold isomorphicInitialize. now destruct (eagerConnection w). Qed.

Lemma connectEagerly_providers (w : World) :
  providers (connectEagerly cfg w) = providers w.
Proof.
  unfold connectEagerly, startActivation.
  pose proof (isomorphicInitialize_providers None (call A_startActivation w)) as H.
  destruct (isomorphicInitialize cfg None (call A_startActivation w)). exact H.
Qed.

Lemma activate_providers (d : option Z) (w : World) :
  providers (activate cfg d w) = providers w.
Proof.
  unfold activate. pose proof (isomorphicInitialize_providers d w) as H.
  destruct (isomorphicInitialize cfg d w). exact H.
Qed.

Lemma invoke_providers (l : Listener) (e : ProviderEvent) (w : World) :
  providers (invoke cfg l e w) = providers w.
Proof.
  destruct l, e; try reflexivity. cbn. unfold disconnectListener.
  destruct error; [destruct (onError cfg)|]; reflexivity.
Qed.

Lemma providerAtEvent_listeners (e : ProviderEvent) (pr : Provider) :
  listeners (providerAtEvent e pr) = listeners pr.
Proof. now destruct e. Qed.

Lemma emit_providers (p : nat) (e : ProviderEvent) (w w' : World) :
  emit cfg p e w = Some w' ->
  providers w' = alter (providerAtEvent e) p (providers w).
Proof.
  unfold emit. destruct (providers w !! p) as [pr|]; [|discriminate].
  intros [= <-].
  change (alter (providerAtEvent e) p (providers w))
    with (providers (onProvider p (providerAtEvent e) w)).
  generalize (onProvider p (providerAtEvent e) w) as w0.
  generalize (listeners pr) as ls. clear pr w.
  induction ls as [| r ls IH]; intros w; cbn [fold_left]; [reflexivity|].
  rewrite IH. destruct (String.eqb (fst r) (eventName e)); [|reflexivity].
  apply invoke_providers.
Qed.

Lemma initializeProvider_init_providers promise d m (w : World) :
  providers (initializeProvider_init cfg promise d m w) = providers w.
Proof. unfold initializeProvider_init. now destruct (getChainProps cfg d). Qed.

Lemma initializeProvider_imported_providers promise d (w : World) :
  providers (initializeProvider_imported cfg promise d w) = providers w.
Proof.
  unfold initializeProvider_imported. destruct (this_rpcMap cfg); [reflexivity|].
  apply initializeProvider_init_providers.
Qed.

Lemma initializeProvider_created_providers promise pr (w : World) :
  providers (initializeProvider_created promise pr w)
  = providers w ++ [on "display_uri" L_URI
                      (on "accountsChanged" L_accountsChanged
                        (on "chainChanged" L_chainChanged
                          (on "disconnect" L_disconnect pr)))].
Proof.
  unfold initializeProvider_created, handleProviderEvents, onProvider. cbn.
  rewrite alter_app_r_alt by lia. now rewrite Nat.sub_diag.
Qed.

Lemma activate_session_providers t p pr s d (w : World) :
  providers (activate_session cfg t p pr s d w) = providers w.
Proof.
  unfold activate_session. destruct d as [d|]; [|reflexivity].
  destruct (negb (JS.truthy (Some d)) || (d =? chainId pr)); [reflexivity|].
  destruct (negb (isConnectedToDesiredChain s d)); [|reflexivity].
  now destruct (isOptionalChain cfg d).
Qed.

(** Each turn leaves the provider objects as they are, or adds the one that
    [init] returned, wired, or changes what one provider holds ([enable], an
    event, the wallet) and keeps its listeners. No turn removes a
    registration. *)
Lemma step_providers (w w' : World) (i : Input) :
  provider w = None ->
  step cfg w i = Some w' ->
  providers w' = providers w \/
  (exists promise pr,
     i = InitSettled promise (inr pr) /\
     providers w' = providers w ++ [on "display_uri" L_URI
                                      (on "accountsChanged" L_accountsChanged
                                        (on "chainChanged" L_chainChanged
                                          (on "disconnect" L_disconnect pr)))]) \/
  (exists p f,
     (forall pr, listeners (f pr) = listeners pr) /\
     providers w' = alter f p (providers w)).
Proof.
  intros Hprov.
  assert (Hdeact : providers (deactivate w) = providers w)
    by (unfold deactivate; now rewrite Hprov).
  destruct i as [| d | | promise r | promise r | promise r | t r | t r | t | p e | p now];
    cbn [step].
  - intros [= <-]. left. apply connectEagerly_providers.
  - intros [= <-]. left. apply activate_providers.
  - intros [= <-]. now left.
  - destruct (promises w !! promise) as [[[d | d |] | |]|]; try discriminate.
    destruct r; intros [= <-]; left;
      [reflexivity | apply initializeProvider_imported_providers].
  - destruct (promises w !! promise) as [[[d | d |] | |]|]; try discriminate.
    destruct r; intros [= <-]; left;
      [reflexivity | apply initializeProvider_init_providers].
  - destruct (promises w !! promise) as [[[d | d |] | |]|]; try discriminate.
    destruct r as [e | pr]; intros [= <-]; [now left|].
    right; left. exists promise, pr. split; [reflexivity|].
    apply initializeProvider_created_providers.
  - destruct (tasks w !! t) as [[]|]; try discriminate.
    intros [= <-]. unfold activate_enabled. destruct r as [e | est].
    + left. exact Hdeact.
    + right; right.
      exists p, (fun pr => {| listeners := listeners pr; session := session est;
                              chainId := chainId est; accounts := accounts est |}).
      split; reflexivity.
  - destruct (tasks w !! t) as [[]|]; try discriminate.
    intros [= <-]. now left.
  - destruct (tasks w !! t) as [[k promise | k e | d promise | | | k e | |]|];
      try discriminate.
    + destruct (promises w !! promise) as [r|]; [|discriminate].
      unfold connectEagerly_initialized.
      destruct r as [| p | e]; [discriminate | |].
      * destruct (providers w !! p) as [pr|]; [|discriminate].
        destruct (session pr); intros [= <-]; left; [reflexivity | exact Hdeact].
      * intros [= <-]. left. exact Hdeact.
    + intros [= <-]. now left.
    + destruct (promises w !! promise) as [r|]; [|discriminate].
      unfold activate_initialized.
      destruct r as [| p | e]; [discriminate | |].
      * destruct (providers w !! p) as [pr|]; [|discriminate].
        destruct (session pr); intros [= <-]; left;
          [apply activate_session_providers | reflexivity].
      * intros [= <-]. now left.
    + intros [= <-]. now left.
  - intros H. right; right. exists p, (providerAtEvent e).
    split; [apply providerAtEvent_listeners | eapply emit_providers; eassumption].
  - unfold providerChanges. destruct (providers w !! p); [|discriminate].
    intros [= <-]. right; right.
    exists p, (fun pr => {| listeners := listeners pr; session := session now;
                            chainId := chainId now; accounts := accounts now |}).
    split; reflexivity.
Qed.

Lemma step_listeners (w w' : World) (i : Input) :
  provider w = None ->
  constructs_fresh i ->
  step cfg w i = Some w' ->
  (forall p pr, providers w !! p = Some pr -> listeners pr = attached) ->
  forall p pr, providers w' !! p = Some pr -> listeners pr = attached.
Proof.
  intros Hprov Hfresh Hstep Hinv p pr.
  destruct (step_providers w w' i Hprov Hstep)
    as [-> | [(promise & pr0 & -> & ->) | (p0 & f & Hf & ->)]].
  - apply Hinv.
  - cbn in Hfresh. rewrite lookup_app.
    destruct (providers w !! p) as [pr1|] eqn:E.
    + intros [= <-]. eapply Hinv; eassumption.
    + destruct (p - length (providers w))%nat as [| n]; cbn; [|discriminate].
      intros [= <-]. cbn. now rewrite Hfresh.
  - rewrite list_lookup_alter. destruct (decide (p0 = p)) as [-> | _]; [|apply Hinv].
    destruct (providers w !! p) as [pr1|] eqn:E; cbn; [|discriminate].
    intros [= <-]. rewrite Hf. eapply Hinv; eassumption.
Qed.

Lemma run_listeners (inputs : list Input) :
  forall w w',
    run cfg w inputs = Some w' ->
    Forall constructs_fresh inputs ->
    single_flight_invariant w ->
    (forall p pr, providers w !! p = Some pr -> listeners pr = attached) ->
    forall p pr, providers w' !! p = Some pr -> listeners pr = attached.
Proof.
  induction inputs as [| i inputs IH]; intros w w'; cbn [run].
  - intros [= <-] _ _ H. exact H.
  - destruct (step cfg w i) as [w1|] eqn:Hstep; [|discriminate].
    intros Hrun Hfresh Hinv Hls.
    apply (IH w1 w' Hrun).
    + exact (Forall_inv_tail Hfresh).
    + eapply step_invariant; eassumption.
    + eapply step_listeners; try eassumption.
      * now destruct Hinv.
      * exact (Forall_inv Hfresh).
Qed.

End Listeners.

(** X9. After any run of the connector, with whatever the wallet changed
    on the providers meanwhile, each provider that the connector has
    constructed carries the four listeners, each registered once, in the
    order of [handleProviderEvents]: no operation registers one a second
    time or removes one. An event that such a provider emits runs the
    listener of that event once and no other: the calls made are those of
    that listener. On the connector's side nothing else changes: the
    promises, the calls in progress and the connector's fields, the memoised
    handle among them, stay as they are, every provider keeps its four
    listeners and the other providers are untouched. What the emitting
    provider holds is its own affair; after a disconnect event it has no
    session. *)
Theorem provider_events_reach_their_listener (cfg : Config) (inputs : list Input)
  (w : World) (p : nat) (pr : Provider) (e : ProviderEvent) :
  run cfg initial inputs = Some w ->
  Forall constructs_fresh inputs ->
  providers w !! p = Some pr ->
  listeners pr = attached /\
  exists w',
    step cfg w (ProviderEmits p e) = Some w' /\
    log w' = log (listenerOf cfg e w) /\
    (forall q pr', providers w' !! q = Some pr' -> listeners pr' = attached) /\
    (forall q, q <> p -> providers w' !! q = providers w !! q) /\
    (forall error, e = Ev_disconnect error ->
       exists pr', providers w' !! p = Some pr' /\ session pr' = None) /\
    promises w' = promises w /\
    tasks w' = tasks w /\
    connector_unchanged w w'.
Proof.
  intros Hrun Hfresh Hp.
  assert (Hall : forall q pr', providers w !! q = Some pr' -> listeners pr' = attached).
  { eapply (run_listeners cfg inputs initial w Hrun Hfresh initial_invariant).
    intros p0 pr0 H. destruct p0; discriminate. }
  assert (Hls : listeners pr = attached) by (eapply Hall; exact Hp).
  split; [exact Hls|].
  assert (Hstep : step cfg w (ProviderEmits p e)
                  = Some (listenerOf cfg e (onProvider p (providerAtEvent e) w))).
  { cbn [step]. unfold emit. rewrite Hp, Hls. destruct e; reflexivity. }
  exists (listenerOf cfg e (onProvider p (providerAtEvent e) w)).
  split; [exact Hstep|].
  assert (Hprov : providers (listenerOf cfg e (onProvider p (providerAtEvent e) w))
                  = alter (providerAtEvent e) p (providers w))
    by (eapply emit_providers; exact Hstep).
  split.
  { destruct e as [error | c | a | u]; cbn [listenerOf]; try reflexivity.
    unfold disconnectListener. destruct error; [destruct (onError cfg)|]; reflexivity. }
  split.
  { intros q pr'. rewrite Hprov, list_lookup_alter.
    destruct (decide (p = q)) as [<- | _]; [|apply Hall].
    rewrite Hp. cbn. intros [= <-]. now rewrite providerAtEvent_listeners. }
  split.
  { intros q Hq. rewrite Hprov. now apply list_lookup_alter_ne. }
  split.
  { intros error ->. exists (providerAtEvent (Ev_disconnect error) pr).
    split; [|reflexivity].
    rewrite Hprov, list_lookup_alter_eq, Hp. reflexivity. }
  pose proof (step_shape cfg w _ _ Hstep) as Hshape.
  destruct e as [error | c | a | u]; cbn [listenerOf];
    try (repeat split; fail).
  unfold disconnectListener. destruct error; [destruct (onError cfg)|]; repeat split.
Qed.

(** The provider of a connector that was activated and then deactivated
    emits a disconnect event. *)
Lemma provider_events_reach_their_listener_witness :
  exists w',
    step Examples.cfg_required
      (Examples.after Examples.cfg_required
         [CallActivate None; ImportSettled 0 None;
          InitSettled 0 (inr Examples.fresh_provider); Resume 0;
          EnableSettled 0 (inr Examples.connected_provider); CallDeactivate])
      (ProviderEmits 0 (Ev_disconnect None)) = Some w' /\
    List.filter byListeners (log w') = [A_update (Some (JS.Int 1)) (Some ["0xabc"]);
                                         A_resetState; A_resetState] /\
    exists pr', providers w' !! 0%nat = Some pr' /\ session pr' = None.
Proof.
  assert (Hrun : run Examples.cfg_required initial
                   [CallActivate None; ImportSettled 0 None;
                    InitSettled 0 (inr Examples.fresh_provider); Resume 0;
                    EnableSettled 0 (inr Examples.connected_provider); CallDeactivate]
                 = Some (Examples.after Examples.cfg_required
                           [CallActivate None; ImportSettled 0 None;
                            InitSettled 0 (inr Examples.fresh_provider); Resume 0;
                            EnableSettled 0 (inr Examples.connected_provider);
                            CallDeactivate]))
    by (vm_compute; reflexivity).
  assert (Hp : providers
                 (Examples.after Examples.cfg_required
                    [CallActivate None; ImportSettled 0 None;
                     InitSettled 0 (inr Examples.fresh_provider); Resume 0;
                     EnableSettled 0 (inr Examples.connected_provider);
                     CallDeactivate]) !! 0%nat
               = Some {| listeners := attached;
                         session := Some {| eip155_accounts := ["eip155:1:0xabc"] |};
                         chainId := 1; accounts := ["0xabc"] |})
    by (vm_compute; reflexivity).
  destruct (provider_events_reach_their_listener Examples.cfg_required _ _ 0 _
              (Ev_disconnect None) Hrun ltac:(repeat constructor) Hp)
    as (_ & w' & Hemit & Hlog & _ & _ & Hsession & _).
  exists w'. split; [exact Hemit|]. split.
  - rewrite Hlog. vm_compute. reflexivity.
  - exact (Hsession None eq_refl).
Defined.

(* ===================================================================== *)
(** * The chain lists handed to the provider *)
(* ===================================================================== *)

Lemma reorder_rearranged (L : option (list Z)) (d : option Z) :
  rearranged L (reorderChainsBasedOnId L d).
Proof.
  destruct L as [l|]; [|now destruct d].
  destruct d as [d|]; [|cbn; reflexivity].
  destruct (Z.eq_dec d 0) as [-> | Hd]; [rewrite reorder_zero; cbn; reflexivity|].
  destruct (in_dec Z.eq_dec d l) as [Hin | Hnot].
  - rewrite (reorder_member l d Hd Hin). cbn.
    now apply getChainsWithDefault_Permutation.
  - rewrite (reorder_not_member l d Hnot). cbn. reflexivity.
Qed.

(** X10. What [getChainProps] hands to the provider's [init] are the
    configured chain lists, each rearranged at most: no chain id is added,
    dropped or moved from one list to the other. The id that decides the
    order is the desired chain id, and the default chain id when none is
    desired; where it is not 0, it is the first element of each list that
    contains it. *)
Theorem getChainProps_rearranges (cfg : Config) (d : option Z) (props : ChainsProps) :
  getChainProps cfg d = inr props ->
  rearranged (options_chains cfg) (chains props) /\
  rearranged (options_optionalChains cfg) (optionalChains props) /\
  forall x l,
    orDefault d (defaultChainId cfg) = Some x -> x <> 0 -> In x l ->
    (options_chains cfg = Some l -> exists rest, chains props = Some (x :: rest)) /\
    (options_optionalChains cfg = Some l ->
     exists rest, optionalChains props = Some (x :: rest)).
Proof.
  rewrite getChainProps_eq.
  destruct (isArrayOneOrMore (options_chains cfg)
            || isArrayOneOrMore (options_optionalChains cfg)); [|discriminate].
  intros [= <-]. cbn [chains optionalChains].
  split; [apply reorder_rearranged|]. split; [apply reorder_rearranged|].
  intros x l -> Hx Hin. split; intros ->; rewrite (reorder_member l x Hx Hin); eauto.
Qed.

(** The default chain id 137 is optional only: it comes first there. *)
Lemma getChainProps_rearranges_witness :
  rearranged (Some [1; 10]) (Some [1; 10]) /\
  rearranged (Some [5; 137]) (Some [137; 5]).
Proof.
  destruct (getChainProps_rearranges
              {| defaultChainId := Some 137; options_chains := Some [1; 10];
                 options_optionalChains := Some [5; 137]; options_rpcMap := None;
                 options_rpc := None; timeout := None; onError := false |}
              None
              {| chains := Some [1; 10]; optionalChains := Some [137; 5] |}
              eq_refl)
    as (H1 & H2 & _).
  split; [exact H1 | exact H2].
Defined.

(* ===================================================================== *)
(** * Activations and their cancellation *)
(* ===================================================================== *)

Section Activations.

Variable cfg : Config.

Lemma quiet_nil : quiet [].
Proof. split; reflexivity. Qed.

Lemma isomorphicInitialize_log (d : option Z) (w : World) :
  exists l, log (snd (isomorphicInitialize cfg d w)) = log w ++ l /\ quiet l /\
            tasks (snd (isomorphicInitialize cfg d w)) = tasks w.
Proof.
  unfold isomorphicInitialize. destruct (eagerConnection w).
  - exists []. cbn. rewrite app_nil_r. auto using quiet_nil.
  - exists [C_import]. cbn. repeat split.
Qed.

Lemma deactivate_log (w : World) :
  exists l, log (deactivate w) = log w ++ l /\ quiet l /\
            tasks (deactivate w) = tasks w.
Proof.
  unfold deactivate. destruct (provider w) as [p|].
  - exists [C_disconnect p; A_resetState]. cbn. rewrite <- app_assoc. repeat split.
  - exists [A_resetState]. repeat split.
Qed.

Lemma invoke_log (l : Listener) (e : ProviderEvent) (w : World) :
  exists cs, log (invoke cfg l e w) = log w ++ cs /\ quiet cs /\
             tasks (invoke cfg l e w) = tasks w.
Proof.
  destruct l, e;
    try (exists []; cbn; rewrite app_nil_r; auto using quiet_nil; fail);
    cbn.
  - unfold disconnectListener. destruct error as [err|]; [destruct (onError cfg)|].
    + exists [A_resetState; C_onError err]. cbn. rewrite <- app_assoc. repeat split.
    + exists [A_resetState]. repeat split.
    + exists [A_resetState]. repeat split.
  - eexists [_]. repeat split.
  - eexists [_]. repeat split.
  - eexists [_]. repeat split.
Qed.

Lemma quiet_app (l l' : list Call) : quiet l -> quiet l' -> quiet (l ++ l').
Proof.
  unfold quiet, cancelled, started. intros [Hc Hs] [Hc' Hs'].
  rewrite flat_map_app, List.filter_app, length_app.
  unfold cancelled in *. rewrite Hc, Hc', Hs, Hs'. auto.
Qed.

Lemma emit_log (p : nat) (e : ProviderEvent) (w w' : World) :
  emit cfg p e w = Some w' ->
  exists l, log w' = log w ++ l /\ quiet l /\ tasks w' = tasks w.
Proof.
  unfold emit. destruct (providers w !! p) as [pr|]; [|discriminate].
  intros [= <-].
  change (log w) with (log (onProvider p (providerAtEvent e) w)).
  change (tasks w) with (tasks (onProvider p (providerAtEvent e) w)).
  generalize (onProvider p (providerAtEvent e) w) as w0.
  generalize (listeners pr) as ls. clear pr w.
  induction ls as [| r ls IH]; intros w; cbn [fold_left].
  - exists []. rewrite app_nil_r. auto using quiet_nil.
  - destruct (String.eqb (fst r) (eventName e)); [|apply IH].
    destruct (invoke_log (snd r) e w) as (l1 & Hl1 & Hq1 & Ht1).
    destruct (IH (invoke cfg (snd r) e w)) as (l2 & Hl2 & Hq2 & Ht2).
    exists (l1 ++ l2). rewrite Hl2, Hl1, Ht2, Ht1, <- app_assoc.
    auto using quiet_app.
Qed.

Lemma providerChanges_log (p : nat) (now : Provider) (w w' : World) :
  providerChanges p now w = Some w' ->
  exists l, log w' = log w ++ l /\ quiet l /\ tasks w' = tasks w.
Proof.
  unfold providerChanges. destruct (providers w !! p); [|discriminate].
  intros [= <-]. exists []. cbn. rewrite app_nil_r. auto using quiet_nil.
Qed.

Lemma initializeProvider_init_log promise d m (w : World) :
  exists l, log (initializeProvider_init cfg promise d m w) = log w ++ l /\ quiet l /\
            tasks (initializeProvider_init cfg promise d m w) = tasks w.
Proof.
  unfold initializeProvider_init. destruct (getChainProps cfg d) as [e | props].
  - exists []. cbn. rewrite app_nil_r. auto using quiet_nil.
  - eexists [_]. repeat split.
Qed.

Lemma initializeProvider_imported_log promise d (w : World) :
  exists l, log (initializeProvider_imported cfg promise d w) = log w ++ l /\ quiet l /\
            tasks (initializeProvider_imported cfg promise d w) = tasks w.
Proof.
  unfold initializeProvider_imported. destruct (this_rpcMap cfg).
  - eexists [_]. repeat split.
  - apply initializeProvider_init_log.
Qed.

Lemma catch_deactivate_step (w : World) (t : nat) (old new : Task) :
  tasks w !! t = Some old -> held new = held old ->
  ActivationStep w (catch_deactivate t new w).
Proof.
  intros Ht Hheld. destruct (deactivate_log w) as (l & Hl & Hq & Htasks).
  apply (AS_moved _ _ l t old new); auto.
  unfold catch_deactivate, continue. cbn [tasks set_tasks]. now rewrite Htasks.
Qed.

Lemma activate_session_step (w : World) (t p : nat) (pr : Provider) (s : Session)
  (d : option Z) (old : Task) :
  tasks w !! t = Some old ->
  ActivationStep w (activate_session cfg t p pr s d w).
Proof.
  intros Ht. unfold activate_session.
  assert (Hone : forall new, held new = None ->
            ActivationStep w (continue t new (call (C_consoleLog p) w))).
  { intros new Hn. apply (AS_moved _ _ [C_consoleLog p] t old new); auto.
    split; reflexivity. }
  destruct d as [d|]; [|now apply Hone].
  destruct (negb (JS.truthy (Some d)) || (d =? chainId pr)); [now apply Hone|].
  destruct (negb (isConnectedToDesiredChain s d)).
  - destruct (isOptionalChain cfg d); now apply Hone.
  - apply (AS_moved _ _ [C_consoleLog p;
                          C_request_switchEthereumChain p ("0x" ++ JS.toString 16 d)]
             t old (AC_awaitRequest p)); auto.
    + cbn. now rewrite <- app_assoc.
    + split; reflexivity.
Qed.

(** Every turn is one of the six kinds of [ActivationStep]. *)
Lemma step_activation (w w' : World) (i : Input) :
  step cfg w i = Some w' -> ActivationStep w w'.
Proof.
  destruct i as [| d | | promise r | promise r | promise r | t r | t r | t | p e | p now];
    cbn [step].
  - intros [= <-]. unfold connectEagerly, startActivation.
    destruct (isomorphicInitialize_log None (call A_startActivation w))
      as (l & Hl & Hq & Ht).
    destruct (isomorphicInitialize cfg None (call A_startActivation w))
      as [promise w1]. cbn [snd] in *.
    eapply (AS_called_started _ _ l); [| exact Hq | | cbn; now rewrite Ht].
    + cbn. rewrite Hl. cbn. now rewrite <- app_assoc.
    + reflexivity.
  - intros [= <-]. unfold activate.
    destruct (isomorphicInitialize_log d w) as (l & Hl & Hq & Ht).
    destruct (isomorphicInitialize cfg d w) as [promise w1]. cbn [snd] in *.
    eapply (AS_called _ _ l); [exact Hl | exact Hq | | cbn; now rewrite Ht].
    reflexivity.
  - intros [= <-]. destruct (deactivate_log w) as (l & Hl & Hq & Ht).
    now apply (AS_quiet _ _ l).
  - destruct (promises w !! promise) as [[[d | d |] | |]|]; try discriminate.
    destruct r; intros [= <-].
    + apply (AS_quiet _ _ []); auto using quiet_nil. cbn. now rewrite app_nil_r.
    + destruct (initializeProvider_imported_log promise d w) as (l & Hl & Hq & Ht).
      now apply (AS_quiet _ _ l).
  - destruct (promises w !! promise) as [[[d | d |] | |]|]; try discriminate.
    destruct r; intros [= <-].
    + apply (AS_quiet _ _ []); auto using quiet_nil. cbn. now rewrite app_nil_r.
    + destruct (initializeProvider_init_log promise d (Some l) w)
        as (l' & Hl & Hq & Ht).
      now apply (AS_quiet _ _ l').
  - destruct (promises w !! promise) as [[[d | d |] | |]|]; try discriminate.
    destruct r; intros [= <-];
      (apply (AS_quiet _ _ []); auto using quiet_nil; cbn; now rewrite app_nil_r).
  - destruct (tasks w !! t) as [[]|] eqn:Ht; try discriminate.
    intros [= <-]. unfold activate_enabled. destruct r as [e | est].
    + eapply catch_deactivate_step; [exact Ht | reflexivity].
    + eapply (AS_moved _ _ [_] t _ Fulfilled); [reflexivity | | exact Ht | | reflexivity].
      * split; reflexivity.
      * now right.
  - destruct (tasks w !! t) as [[]|] eqn:Ht; try discriminate.
    intros [= <-].
    eapply (AS_moved _ _ [] t _ _); [| apply quiet_nil | exact Ht | | reflexivity].
    + cbn. now rewrite app_nil_r.
    + right. now destruct r.
  - destruct (tasks w !! t) as [[k promise | k e | d promise | | | k e | |]|] eqn:Ht;
      try discriminate.
    + destruct (promises w !! promise) as [r|]; [|discriminate].
      unfold connectEagerly_initialized.
      destruct r as [| p | e]; [discriminate | |].
      * destruct (providers w !! p) as [pr|]; [|discriminate].
        destruct (session pr); intros [= <-].
        -- eapply (AS_moved _ _ [_] t _ Fulfilled);
             [reflexivity | | exact Ht | | reflexivity].
           ++ split; reflexivity.
           ++ now right.
        -- eapply catch_deactivate_step; [exact Ht | reflexivity].
      * intros [= <-]. eapply catch_deactivate_step; [exact Ht | reflexivity].
    + intros [= <-].
      eapply (AS_cancelled _ _ t _ (Failed e) k); [| exact Ht | | |]; reflexivity.
    + destruct (promises w !! promise) as [r|]; [|discriminate].
      unfold activate_initialized.
      destruct r as [| p | e]; [discriminate | |].
      * destruct (providers w !! p) as [pr|]; [|discriminate].
        destruct (session pr); intros [= <-].
        -- eapply activate_session_step. exact Ht.
        -- eapply (AS_started _ _ [C_enable p] t _ (AC_awaitEnable _ p));
             [| | exact Ht | | |]; try reflexivity.
           ++ cbn. now rewrite <- app_assoc.
           ++ split; reflexivity.
      * intros [= <-].
        eapply (AS_moved _ _ [] t _ (Failed e));
          [| apply quiet_nil | exact Ht | | reflexivity].
        -- cbn. now rewrite app_nil_r.
        -- now right.
    + intros [= <-].
      eapply (AS_cancelled _ _ t _ (Failed e) k); [| exact Ht | | |]; reflexivity.
  - intros H. destruct (emit_log p e w w' H) as (l & Hl & Hq & Ht).
    now apply (AS_quiet _ _ l).
  - intros H. destruct (providerChanges_log p now w w' H) as (l & Hl & Hq & Ht).
    now apply (AS_quiet _ _ l).
Qed.

End Activations.

Section ActivationInvariant.

Lemma started_app (l l' : list Call) : started (l ++ l') = (started l + started l')%nat.
Proof. unfold started. now rewrite List.filter_app, length_app. Qed.

Lemma cancelled_app (l l' : list Call) : cancelled (l ++ l') = cancelled l ++ cancelled l'.
Proof. apply flat_map_app. Qed.

Lemma heldBy_app (ts ts' : list Task) : heldBy (ts ++ ts') = heldBy ts ++ heldBy ts'.
Proof. apply flat_map_app. Qed.

Lemma cancelsFollowStarts_app (l l' : list Call) :
  forall n, cancelsFollowStarts n (l ++ l')
            = cancelsFollowStarts n l && cancelsFollowStarts (n + started l) l'.
Proof.
  induction l as [| c l IH]; intros n.
  - cbn. now rewrite Nat.add_0_r.
  - destruct c; cbn [app cancelsFollowStarts]; rewrite IH;
      try (unfold started; cbn; fold (started l); reflexivity).
    + unfold started; cbn; fold (started l). now rewrite Nat.add_succ_r.
    + unfold started; cbn; fold (started l). now rewrite andb_assoc.
Qed.

Lemma cancelsFollowStarts_quiet (l : list Call) :
  cancelled l = [] -> forall n, cancelsFollowStarts n l = true.
Proof.
  induction l as [| c l IH]; intros Hc n; [reflexivity|].
  destruct c; cbn in *; try discriminate; auto.
Qed.

Lemma heldBy_insert (ts : list Task) (t : nat) (old new : Task) :
  ts !! t = Some old ->
  exists h1 h2,
    heldBy ts = h1 ++ option_list (held old) ++ h2 /\
    heldBy (<[t := new]> ts) = h1 ++ option_list (held new) ++ h2.
Proof.
  intros Ht. exists (heldBy (take t ts)), (heldBy (drop (S t) ts)). split.
  - rewrite <- (take_drop_middle ts t old Ht) at 1.
    rewrite heldBy_app. reflexivity.
  - rewrite insert_take_drop by (eapply lookup_lt_Some; eassumption).
    rewrite heldBy_app. reflexivity.
Qed.

Lemma fresh_activation (n : nat) (u : list nat) :
  List.NoDup u -> Forall (fun k => (k < n)%nat) u ->
  List.NoDup (n :: u) /\ Forall (fun k => (k < S n)%nat) (n :: u).
Proof.
  intros Hnd Hlt. split.
  - constructor; [|exact Hnd]. intros Hin.
    pose proof (proj1 (List.Forall_forall _ _) Hlt n Hin) as H. cbv beta in H. lia.
  - constructor; [lia|]. eapply List.Forall_impl; [|exact Hlt].
    intros k Hk; cbv beta in *; lia.
Qed.

Lemma permuted_invariant (n : nat) (u u' : list nat) :
  Permutation u u' ->
  List.NoDup u /\ Forall (fun k => (k < n)%nat) u ->
  List.NoDup u' /\ Forall (fun k => (k < n)%nat) u'.
Proof.
  intros Hp [Hnd Hlt]. split.
  - eapply Permutation_NoDup; eassumption.
  - apply List.Forall_forall. intros k Hin.
    apply (proj1 (List.Forall_forall _ _) Hlt). eapply Permutation_in; [|exact Hin].
    now symmetry.
Qed.

Lemma activation_step_invariant (w w' : World) :
  ActivationStep w w' -> activation_invariant w -> activation_invariant w'.
Proof.
  unfold activation_invariant.
  intros Hstep (Hnd & Hlt & Hcfs).
  destruct Hstep
    as [l Hlog [Hc Hs] Ht
       | l task Hlog [Hc Hs] Hheld Ht
       | l task Hlog [Hc Hs] Hheld Ht
       | l t old new Hlog [Hc Hs] Hold Hheld Ht
       | l t old new Hlog [Hc Hs] Hold Hnone Hheld Ht
       | t old new k Hlog Hold Hk Hnone Ht];
    rewrite Hlog, Ht.
  - rewrite cancelled_app, started_app, cancelsFollowStarts_app, Hc, Hs, Hcfs.
    rewrite app_nil_r, Nat.add_0_r, cancelsFollowStarts_quiet by exact Hc. auto.
  - rewrite cancelled_app, started_app, cancelsFollowStarts_app, Hc, Hs, Hcfs.
    rewrite heldBy_app. unfold heldBy at 2 4. cbn. rewrite Hheld. cbn.
    rewrite !app_nil_r, Nat.add_0_r, cancelsFollowStarts_quiet by exact Hc. auto.
  - rewrite cancelled_app, started_app, cancelsFollowStarts_app, Hcfs.
    cbn [cancelled flat_map app cancelsFollowStarts].
    fold (cancelled l). rewrite Hc, app_nil_r.
    replace (started (A_startActivation :: l)) with 1%nat
      by (unfold started in *; cbn; now rewrite Hs).
    rewrite cancelsFollowStarts_quiet by exact Hc.
    rewrite heldBy_app. unfold heldBy at 2 4. cbn. rewrite Hheld. cbn.
    rewrite Nat.add_1_r.
    destruct (fresh_activation (started (log w)) _ Hnd Hlt) as [Hnd' Hlt'].
    split; [|split; [|reflexivity]].
    + eapply Permutation_NoDup; [|exact Hnd'].
      rewrite app_assoc. apply Permutation_cons_append.
    + apply List.Forall_forall. intros k Hin.
      apply (proj1 (List.Forall_forall _ _) Hlt').
      eapply Permutation_in; [|exact Hin].
      rewrite app_assoc. symmetry. apply Permutation_cons_append.
  - rewrite cancelled_app, started_app, cancelsFollowStarts_app, Hc, Hs, Hcfs.
    rewrite app_nil_r, Nat.add_0_r, cancelsFollowStarts_quiet by exact Hc.
    destruct (heldBy_insert (tasks w) t old new Hold) as (h1 & h2 & Hb & Ha).
    rewrite Ha. rewrite Hb in Hnd, Hlt.
    destruct Hheld as [-> | ->]; [auto|].
    cbn [option_list app].
    assert (Hperm : Permutation (cancelled (log w) ++ h1 ++ option_list (held old) ++ h2)
                                (option_list (held old) ++ cancelled (log w) ++ h1 ++ h2)).
    { rewrite (app_assoc (cancelled (log w)) h1 (option_list (held old) ++ h2)).
      rewrite (app_assoc (cancelled (log w)) h1 h2).
      apply Permutation_app_swap_app. }
    destruct (permuted_invariant _ _ _ Hperm (conj Hnd Hlt)) as [Hnd' Hlt'].
    split; [eapply NoDup_app_remove_l; exact Hnd'|].
    split; [|reflexivity].
    apply Forall_app in Hlt' as [_ Hlt']. exact Hlt'.
  - rewrite cancelled_app, started_app, cancelsFollowStarts_app, Hcfs.
    cbn [cancelled flat_map app cancelsFollowStarts].
    fold (cancelled l). rewrite Hc, app_nil_r.
    replace (started (A_startActivation :: l)) with 1%nat
      by (unfold started in *; cbn; now rewrite Hs).
    rewrite cancelsFollowStarts_quiet by exact Hc.
    destruct (heldBy_insert (tasks w) t old new Hold) as (h1 & h2 & Hb & Ha).
    rewrite Ha, Hheld. rewrite Hb, Hnone in Hnd, Hlt. cbn [option_list app] in *.
    rewrite Nat.add_1_r.
    destruct (fresh_activation (started (log w)) _ Hnd Hlt) as [Hnd' Hlt'].
    assert (Hperm : Permutation (started (log w) :: cancelled (log w) ++ h1 ++ h2)
                                (cancelled (log w) ++ h1 ++ started (log w) :: h2)).
    { rewrite !app_assoc. apply Permutation_middle. }
    destruct (permuted_invariant _ _ _ Hperm (conj Hnd' Hlt')) as [Hnd2 Hlt2].
    auto.
  - rewrite cancelled_app, started_app, cancelsFollowStarts_app, Hcfs.
    cbn [cancelled flat_map app cancelsFollowStarts started List.filter
         isStartActivation length].
    rewrite Nat.add_0_r, andb_true_r.
    destruct (heldBy_insert (tasks w) t old new Hold) as (h1 & h2 & Hb & Ha).
    rewrite Ha, Hnone. rewrite Hb, Hk in Hnd, Hlt. cbn [option_list app] in *.
    assert (Hperm : Permutation (cancelled (log w) ++ h1 ++ k :: h2)
                                ((cancelled (log w) ++ [k]) ++ h1 ++ h2)).
    { rewrite <- app_assoc. apply Permutation_app_head. cbn.
      symmetry. apply Permutation_middle. }
    destruct (permuted_invariant _ _ _ Hperm (conj Hnd Hlt)) as [Hnd' Hlt'].
    split; [exact Hnd'|]. split; [exact Hlt'|].
    apply Nat.ltb_lt.
    apply (proj1 (List.Forall_forall _ _) Hlt k).
    apply in_or_app. right. apply in_or_app. right. now left.
Qed.

Lemma run_activation_invariant (cfg : Config) (inputs : list Input) :
  forall w w', run cfg w inputs = Some w' ->
    activation_invariant w -> activation_invariant w'.
Proof.
  induction inputs as [| i inputs IH]; intros w w'; cbn [run].
  - now intros [= <-].
  - destruct (step cfg w i) as [w1|] eqn:Hstep; [|discriminate].
    intros Hrun Hinv. eapply IH; [eassumption|].
    eapply activation_step_invariant; [|exact Hinv].
    eapply step_activation; eassumption.
Qed.

End ActivationInvariant.

(** X11. After any run of the connector, in the calls made on Actions: no
    cancel function is called twice; each call of a cancel function comes
    after the startActivation() that returned it; and a cancel function that
    a suspended [connectEagerly] or [activate] still holds has not been
    called, and no two suspended calls hold the same. *)
Theorem activations_cancelled_at_most_once (cfg : Config) (inputs : list Input)
  (w : World) :
  run cfg initial inputs = Some w ->
  List.NoDup (cancelled (log w)) /\
  cancelsFollowStarts 0 (log w) = true /\
  List.NoDup (heldBy (tasks w)) /\
  (forall k, In k (heldBy (tasks w)) ->
             ~ In k (cancelled (log w)) /\ (k < started (log w))%nat).
Proof.
  intros Hrun.
  assert (Hinit : activation_invariant initial).
  { unfold activation_invariant; cbn. repeat split; constructor. }
  destruct (run_activation_invariant cfg inputs _ _ Hrun Hinit) as (Hnd & Hlt & Hcfs).
  split; [eapply NoDup_app_remove_r; exact Hnd|].
  split; [exact Hcfs|].
  split; [eapply NoDup_app_remove_l; exact Hnd|].
  intros k Hin. split.
  - intros Hc. revert Hnd Hc Hin. generalize (cancelled (log w)) as c.
    induction c as [| x c IH]; intros Hnd Hc Hin; [destruct Hc|].
    cbn in Hnd. apply NoDup_cons_iff in Hnd as [Hx Hnd].
    destruct Hc as [-> | Hc]; [|now apply IH].
    apply Hx. apply in_or_app. now right.
  - apply (proj1 (List.Forall_forall _ _) Hlt k). apply in_or_app. now right.
Qed.

(** Two eager connections that both find no session: each is cancelled
    once, after it was started. *)
Lemma activations_cancelled_at_most_once_witness :
  List.NoDup [0%nat; 1%nat] /\
  cancelsFollowStarts 0
    [A_startActivation; C_import; A_startActivation;
     C_init {| chains := Some [1; 5]; optionalChains := None |} None;
     A_resetState; A_resetState; A_cancelActivation 0; A_cancelActivation 1] = true.
Proof.
  assert (Hrun : run Examples.cfg_required initial
                   [CallConnectEagerly; CallConnectEagerly; ImportSettled 0 None;
                    InitSettled 0 (inr Examples.fresh_provider);
                    Resume 0; Resume 1; Resume 0; Resume 1]
                 = Some (Examples.after Examples.cfg_required
                           [CallConnectEagerly; CallConnectEagerly; ImportSettled 0 None;
                            InitSettled 0 (inr Examples.fresh_provider);
                            Resume 0; Resume 1; Resume 0; Resume 1]))
    by (vm_compute; reflexivity).
  destruct (activations_cancelled_at_most_once Examples.cfg_required _ _ Hrun)
    as (Hnd & Hcfs & _).
  split; [exact Hnd | exact Hcfs].
Defined.

(* ===================================================================== *)
(** * Endpoint selection during construction *)
(* ===================================================================== *)

(** X12. With an endpoint map configured, [rpcMap] or, when that is absent,
    the deprecated [rpc], the construction of the provider imports the
    module, then calls [getBestUrlMap] with that map and the configured
    timeout (5000 when none is given) and awaits it, and only then calls the
    provider's [init], with the chain lists of [getChainProps] and with the
    map that the selection resolved to. When the selection rejects, the
    construction is rejected with its error, [init] is not called, no
    provider exists, and the rejected handle stays memoised. *)
Theorem endpoint_selection_precedes_init (cfg : Config) (d : option Z)
  (m : list (Z * list string)) (resolved : list (Z * string)) (props : ChainsProps) :
  options_rpcMap cfg = Some m \/ (options_rpcMap cfg = None /\ options_rpc cfg = Some m) ->
  getChainProps cfg d = inr props ->
  (exists w,
     run cfg initial
       [CallActivate d; ImportSettled 0 None; BestUrlMapSettled 0 (inr resolved)] = Some w /\
     log w = [C_import;
              C_getBestUrlMap m (match timeout cfg with Some t => t | None => 5000 end);
              C_init props (Some resolved)] /\
     promises w = [Pending AwaitInit]) /\
  (forall e, exists w,
     run cfg initial
       [CallActivate d; ImportSettled 0 None; BestUrlMapSettled 0 (inl e)] = Some w /\
     log w = [C_import;
              C_getBestUrlMap m (match timeout cfg with Some t => t | None => 5000 end)] /\
     promises w = [Rejected e] /\
     providers w = [] /\
     eagerConnection w = Some 0%nat).
Proof.
  intros Hmap Hprops.
  assert (Hrpc : this_rpcMap cfg = Some m).
  { unfold this_rpcMap. destruct Hmap as [-> | [-> ->]]; reflexivity. }
  split.
  - eexists. split.
    + erewrite run_cons.
      2:{ cbn [step]. unfold activate, isomorphicInitialize, initializeProvider, initial.
          world_record. cbn. reflexivity. }
      erewrite run_cons.
      2:{ cbn [step promises]. cbn. unfold initializeProvider_imported.
          rewrite Hrpc. world_record. cbn. reflexivity. }
      erewrite run_cons.
      2:{ cbn [step promises]. cbn. unfold initializeProvider_init.
          rewrite ?getChainProps_orDefault, ?getChainProps_default, Hprops.
          world_record. cbn. reflexivity. }
      reflexivity.
    + cbn. repeat split.
  - intros e. eexists. split.
    + erewrite run_cons.
      2:{ cbn [step]. unfold activate, isomorphicInitialize, initializeProvider, initial.
          world_record. cbn. reflexivity. }
      erewrite run_cons.
      2:{ cbn [step promises]. cbn. unfold initializeProvider_imported.
          rewrite Hrpc. world_record. cbn. reflexivity. }
      erewrite run_cons.
      2:{ cbn [step promises]. cbn. world_record. cbn. reflexivity. }
      reflexivity.
    + cbn. repeat split.
Qed.

(** Only the deprecated [rpc] is configured, and no timeout. *)
Lemma endpoint_selection_precedes_init_witness :
  exists w,
    run {| defaultChainId := None; options_chains := Some [1];
           options_optionalChains := None; options_rpcMap := None;
           options_rpc := Some [(1, ["https://a.example"; "https://b.example"])];
           timeout := None; onError := false |}
        initial
        [CallActivate None; ImportSettled 0 None;
         BestUrlMapSettled 0 (inr [(1, "https://b.example")])] = Some w /\
    log w = [C_import;
             C_getBestUrlMap [(1, ["https://a.example"; "https://b.example"])] 5000;
             C_init {| chains := Some [1]; optionalChains := None |}
                    (Some [(1, "https://b.example")])].
Proof.
  destruct (endpoint_selection_precedes_init
              {| defaultChainId := None; options_chains := Some [1];
                 options_optionalChains := None; options_rpcMap := None;
                 options_rpc := Some [(1, ["https://a.example"; "https://b.example"])];
                 timeout := None; onError := false |}
              None [(1, ["https://a.example"; "https://b.example"])]
              [(1, "https://b.example")]
              {| chains := Some [1]; optionalChains := None |}
              (or_intror (conj eq_refl eq_refl)) eq_refl)
    as ((w & Hrun & Hlog & _) & _).
  exists w. split; [exact Hrun | exact Hlog].
Defined.

(* ===================================================================== *)
(** * Who calls the error callback and the event channel *)
(* ===================================================================== *)

Section Callbacks.

Variable cfg : Config.

Lemma invoke_calls (l : Listener) (e : ProviderEvent) (w : World) :
  exists cs, log (invoke cfg l e w) = log w ++ cs /\ forallb byListeners cs = true.
Proof.
  destruct l, e;
    try (exists []; cbn; rewrite app_nil_r; auto; fail);
    cbn.
  - unfold disconnectListener. destruct error as [err|]; [destruct (onError cfg)|].
    + exists [A_resetState; C_onError err]. cbn. rewrite <- app_assoc. auto.
    + exists [A_resetState]. auto.
    + exists [A_resetState]. auto.
  - eexists [_]. split; reflexivity.
  - eexists [_]. split; reflexivity.
  - eexists [_]. split; reflexivity.
Qed.

Lemma emit_calls (p : nat) (e : ProviderEvent) (w w' : World) :
  emit cfg p e w = Some w' ->
  exists l, log w' = log w ++ l /\ forallb byListeners l = true.
Proof.
  unfold emit. destruct (providers w !! p) as [pr|]; [|discriminate].
  intros [= <-].
  change (log w) with (log (onProvider p (providerAtEvent e) w)).
  generalize (onProvider p (providerAtEvent e) w) as w0.
  generalize (listeners pr) as ls. clear pr w.
  induction ls as [| r ls IH]; intros w; cbn [fold_left].
  - exists []. rewrite app_nil_r. auto.
  - destruct (String.eqb (fst r) (eventName e)); [|apply IH].
    destruct (invoke_calls (snd r) e w) as (l1 & Hl1 & Hq1).
    destruct (IH (invoke cfg (snd r) e w)) as (l2 & Hl2 & Hq2).
    exists (l1 ++ l2). rewrite Hl2, Hl1, <- app_assoc, forallb_app, Hq1, Hq2. auto.
Qed.

(** Closes a goal [exists l, log w' = log w ++ l /\ forallb byOperations l =
    true] for a state [w'] that is written out. *)
Ltac operation_calls :=
  cbn [log set_log set_tasks set_promises set_providers set_eagerConnection
       set_provider count_deactivation];
  first
    [ exists []; rewrite app_nil_r; split; reflexivity
    | eexists; split; [rewrite <- ?app_assoc; cbn [app]; reflexivity | reflexivity] ].

(** Splits the goal along the innermost [match] it contains. *)
Ltac split_innermost_match :=
  match goal with
  | |- context [match ?x with _ => _ end] =>
      lazymatch x with
      | context [match _ with _ => _ end] => fail
      | _ => destruct x eqn:?
      end
  end.

Ltac simplify_world :=
  cbn [eagerConnection provider log tasks promises providers deactivations
       set_log set_tasks set_promises set_providers set_eagerConnection
       set_provider count_deactivation fst snd].

Ltac unfold_operations :=
  repeat progress
    unfold connectEagerly, activate, startActivation, isomorphicInitialize,
      initializeProvider, deactivate, initializeProvider_imported,
      initializeProvider_init, initializeProvider_created, handleProviderEvents,
      activate_enabled, catch_deactivate, connectEagerly_initialized,
      activate_initialized, activate_session, cancel_and_throw, providerChanges,
      continue, settle, onProvider, call.

Lemma operation_step_calls (w w' : World) (i : Input) :
  isProviderEvent i = false ->
  step cfg w i = Some w' ->
  exists l, log w' = log w ++ l /\ forallb byOperations l = true.
Proof.
  destruct i; try discriminate; intros _; cbn [step]; unfold_operations;
    repeat (simplify_world; split_innermost_match);
    simplify_world; try discriminate; intros [= <-];
    repeat (simplify_world; split_innermost_match);
    operation_calls.
Qed.

End Callbacks.

(** X13. The error callback [onError] and the outward [URI_AVAILABLE] event
    are reached from provider events only. A call or a resumption of
    [connectEagerly], [activate] or [deactivate] and a step of the provider's
    construction, whatever their outcome, add to the calls made neither a
    call of [onError] nor an event on the outward channel: an error with
    which these operations fail goes to their caller and is not reported
    through [onError]. An event of a provider, in turn, makes the connector
    call nothing but resetState() and update() on Actions, [onError] and the
    event channel: it never calls the provider and never starts or cancels
    an activation. *)
Theorem callbacks_come_from_provider_events (cfg : Config) (w w' : World) (i : Input) :
  step cfg w i = Some w' ->
  exists l,
    log w' = log w ++ l /\
    (if isProviderEvent i then forallb byListeners l else forallb byOperations l) = true.
Proof.
  intros Hstep. destruct (isProviderEvent i) eqn:Hi.
  - destruct i; try discriminate. cbn [step] in Hstep.
    eapply emit_calls; eassumption.
  - eapply operation_step_calls; eassumption.
Qed.

(** [connectEagerly] finds no session and fails: the error is not reported
    through [onError], although the callback is configured. *)
Lemma callbacks_come_from_provider_events_witness :
  exists l,
    log (Examples.after Examples.cfg_required
           [CallConnectEagerly; ImportSettled 0 None;
            InitSettled 0 (inr Examples.fresh_provider); Resume 0; Resume 0])
    = log (Examples.after Examples.cfg_required
             [CallConnectEagerly; ImportSettled 0 None;
              InitSettled 0 (inr Examples.fresh_provider); Resume 0]) ++ l /\
    forallb byOperations l = true.
Proof.
  assert (Hstep : step Examples.cfg_required
                    (Examples.after Examples.cfg_required
                       [CallConnectEagerly; ImportSettled 0 None;
                        InitSettled 0 (inr Examples.fresh_provider); Resume 0])
                    (Resume 0)
                  = Some (Examples.after Examples.cfg_required
                            [CallConnectEagerly; ImportSettled 0 None;
                             InitSettled 0 (inr Examples.fresh_provider);
                             Resume 0; Resume 0]))
    by (vm_compute; reflexivity).
  exact (callbacks_come_from_provider_events Examples.cfg_required _ _ (Resume 0) Hstep).
Defined.
